(** * gps-route-tracker: the route model of [app.js] and its persistence

    A shallow embedding of [src/app.js]: the duration formatter
    [humanizeSeconds], the great-circle distance [haversine], the metrics of
    [Route], the point list rendered by [Route.toHtml], and
    [RouteDatabase.insertRoute] / [RouteDatabase.listRoutes] over a model of
    the JavaScript heap and of the IndexedDB object store [routes]. *)

From Stdlib Require Import ZArith QArith Qround Reals Lia Lra.
From stdpp Require Import gmap strings list fin_maps pretty.
From stdpp Require Import sorting.

Local Open Scope Z_scope.

(** ** Formatting helpers (app.js, lines 23-47) *)

Module Format.

(** [secondUnits] (lines 23-28). [Object.keys] enumerates string keys in
    insertion order, so the object is kept as the ordered list of its
    entries. *)
Definition secondUnits : list (string * Q) :=
  [("d", 86400%Q); ("h", 3600%Q); ("m", 60%Q); ("s", 1%Q)].

(** The argument of [humanizeSeconds] is a JavaScript number; the function
    only divides it, floors it and takes remainders, which is modelled on
    exact rationals (every finite double is one).  The exact quotient has
    the floor of the rounded quotient of the source for every magnitude
    that a difference of two time values has; it has not where the
    quotient of a double underflows, or passes 2^53. *)

(** [Math.floor]. *)
Definition Math_floor (x : Q) : Z := Qfloor x.

(** Rounding towards zero, as the quotient inside [%] does. *)
Definition Qtrunc (x : Q) : Z := Z.quot (Qnum x) (Z.pos (Qden x)).

(** [x % y]: the remainder takes the sign of the dividend. *)
Definition js_rem (x y : Q) : Q := (x - y * inject_Z (Qtrunc (x / y)))%Q.

(** Truthiness of a number that is an integer ([if (amount)]). *)
Definition truthy (amount : Z) : bool := negb (amount =? 0).

(** Truthiness of [string.length]. *)
Definition length_truthy (s : string) : bool :=
  negb (Nat.eqb (String.length s) 0).

(** One iteration of the loop of lines 37-45, on the pair of the locals
    [string] and [number]. *)
Definition humanizeSeconds_body (st : string * Q) (entry : string * Q)
  : string * Q :=
  let '(str, number) := st in
  let '(unit, conversion) := entry in
  let amount := Math_floor (number / conversion) in
  let str :=
    if truthy amount then
      (if length_truthy str then str +:+ ", " else str)
        +:+ pretty amount +:+ " " +:+ unit
    else str in
  (str, js_rem number conversion).

(** The local [string] after one iteration, from its value before, the
    amount and the unit (lines 40-43 on their own). *)
Definition emit (str : string) (amount : Z) (unit : string) : string :=
  if truthy amount then
    (if length_truthy str then str +:+ ", " else str)
      +:+ pretty amount +:+ " " +:+ unit
  else str.

(** [humanizeSeconds] (lines 35-47). *)
Definition humanizeSeconds (number : Q) : string :=
  fst (fold_left humanizeSeconds_body secondUnits ("", number)).

(** A component of a duration, an amount and its unit, as it is printed;
    the amount in decimal, as a template literal prints an integer below
    1e21. *)
Definition render (c : Z * string) : string :=
  pretty (fst c) +:+ " " +:+ snd c.

(** A component that is printed: its amount is not zero. *)
Definition nonzero (c : Z * string) : bool := negb (fst c =? 0).

End Format.

(** ** JavaScript numbers

    [haversine] and the metrics of [Route] compute on IEEE-754 doubles with
    the [Math] library.  The operations they use are an interface: the
    definitions below read as the source does, over any carrier. *)

Class JsNumber (number : Type) := {
  ofZ : Z → number;                      (* an integer literal or time value *)
  num_neg : number → number;             (* unary minus, of the laws *)
  num_add : number → number → number;
  num_sub : number → number → number;
  num_mul : number → number → number;
  num_div : number → number → number;
  Math_PI : number;
  Math_sin : number → number;
  Math_cos : number → number;
  Math_sqrt : number → number;
  Math_atan2 : number → number → number;
}.

Declare Scope num_scope.
Delimit Scope num_scope with num.
Infix "+" := num_add : num_scope.
Infix "-" := num_sub : num_scope.
Infix "*" := num_mul : num_scope.
Infix "/" := num_div : num_scope.
Notation "- x" := (num_neg x) : num_scope.

(** The laws of the arithmetic that the symmetry of [haversine] rests on.
    Each holds of the real numbers, and of IEEE-754 doubles in
    round-to-nearest: negation is exact, rounding is symmetric, and the
    difference of two equal numbers is [+0] either way round (the second
    case of [num_sub_swap]).  [Math_sin_neg] is the oddness of the sine of
    the host's [Math] library. *)
Class JsNumberLaws (number : Type) `{JsNumber number} : Prop := {
  num_mul_comm : ∀ x y : number, (x * y = y * x)%num;
  num_sub_swap : ∀ x y : number, (x - y = - (y - x) ∨ x - y = y - x)%num;
  num_div_neg_l : ∀ x y : number, (- x / y = - (x / y))%num;
  num_mul_neg_r : ∀ x y : number, (x * - y = - (x * y))%num;
  num_mul_neg_neg : ∀ x y : number, (- x * - y = x * y)%num;
  Math_sin_neg : ∀ x : number, Math_sin (- x)%num = (- Math_sin x)%num;
}.

(** The real numbers as a carrier.  [atan2 y x] is the angle of the point
    [(x, y)], in the interval from [-PI] to [PI]. *)
Definition R_atan2 (y x : R) : R :=
  if Rlt_dec 0 x then atan (y / x)
  else if Rlt_dec x 0 then
    (if Rle_dec 0 y then atan (y / x) + PI else atan (y / x) - PI)%R
  else if Rlt_dec 0 y then (PI / 2)%R
  else if Rlt_dec y 0 then (- (PI / 2))%R
  else 0%R.

#[export] Instance R_JsNumber : JsNumber R := {|
  ofZ := IZR;
  num_neg := Ropp;
  num_add := Rplus;
  num_sub := Rminus;
  num_mul := Rmult;
  num_div := Rdiv;
  Math_PI := PI;
  Math_sin := sin;
  Math_cos := cos;
  Math_sqrt := sqrt;
  Math_atan2 := R_atan2;
|}.

(** ** Coordinate (lines 48-60) *)

(** A [Date] is its time value, the milliseconds that [getTime] returns. *)
Definition Date : Type := Z.

Definition getTime (d : Date) : Z := d.

Record Coordinate (number : Type) : Type := {
  lat : number;
  lon : number;
  timestamp : Date;
}.
Arguments lat {number} _.
Arguments lon {number} _.
Arguments timestamp {number} _.

(** The constructor: [timestamp || new Date()], with [now] the clock that
    [new Date()] reads.  [None] is a [null] (or omitted) argument; a [Date]
    object is truthy whatever its time value. *)
Definition new_Coordinate {number : Type} (lat lon : number)
    (timestamp : option Date) (now : Date) : Coordinate number :=
  {| lat := lat; lon := lon; timestamp := default now timestamp |}.

(** ** haversine and the metrics of Route (lines 68-145) *)

Section Geo.
Context {number : Type} `{JsNumber number}.
Local Open Scope num_scope.

(** [haversine] (lines 68-89). *)
Definition haversine (pointA pointB : Coordinate number) : number :=
  let R := ofZ 6371 in
  let pointALatRad := (lat pointA * Math_PI) / ofZ 180 in
  let pointALonRad := (lon pointA * Math_PI) / ofZ 180 in
  let pointBLatRad := (lat pointB * Math_PI) / ofZ 180 in
  let pointBLonRad := (lon pointB * Math_PI) / ofZ 180 in
  let latDelta := pointBLatRad - pointALatRad in
  let lonDelta := pointBLonRad - pointALonRad in
  let a :=
    Math_sin (latDelta / ofZ 2) * Math_sin (latDelta / ofZ 2) +
    Math_cos pointALatRad *
      Math_cos pointBLatRad *
      Math_sin (lonDelta / ofZ 2) *
      Math_sin (lonDelta / ofZ 2) in
  let c := ofZ 2 * Math_atan2 (Math_sqrt a) (Math_sqrt (ofZ 1 - a)) in
  let distance := R * c in
  distance.

(** The body of the loop of [getLength], at index [i]. *)
Definition getLength_body (coordinates : list (Coordinate number))
    (totalDistance : number) (i : nat) : number :=
  match coordinates !! (i - 1)%nat, coordinates !! i with
  | Some prev, Some cur => totalDistance + haversine prev cur
  | _, _ => totalDistance
  end.

(** [Route.getLength] (lines 117-124), on the array [this.coordinates]. *)
Definition getLength (coordinates : list (Coordinate number)) : number :=
  let totalDistance := ofZ 0 in
  if (length coordinates <? 2)%nat then totalDistance
  else fold_left (getLength_body coordinates)
         (seq 1 (length coordinates - 1)) totalDistance.

(** [Route.getDuration] (lines 130-137). *)
Definition getDuration (coordinates : list (Coordinate number)) : number :=
  if (length coordinates <? 2)%nat then ofZ 0
  else
    match coordinates !! (length coordinates - 1)%nat, coordinates !! 0%nat with
    | Some last, Some first =>
        (ofZ (getTime (timestamp last)) - ofZ (getTime (timestamp first)))
          / ofZ 1000
    | _, _ => ofZ 0
    end.

(** [Route.getAvgSpeed] (lines 142-145). *)
Definition getAvgSpeed (coordinates : list (Coordinate number)) : number :=
  if (length coordinates <? 2)%nat then ofZ 0
  else getLength coordinates / (getDuration coordinates / ofZ 3600).

End Geo.

(** ** The point list of Route.toHtml (lines 151-153) *)

Section Html.
Context {A : Type}.

(** [Array.prototype.slice(start, end)]: a negative index counts from the
    end of the array, and both are clamped to its bounds. *)
Definition Array_slice (start final : Z) (l : list A) : list A :=
  let len := Z.of_nat (length l) in
  let k := if start <? 0 then Z.max (len + start) 0 else Z.min start len in
  let e := if final <? 0 then Z.max (len + final) 0 else Z.min final len in
  take (Z.to_nat (e - k)) (drop (Z.to_nat k) l).

(** The local [coordinates] of [toHtml]: the points that are rendered, in
    the order of their [<li>] items. *)
Definition toHtml_coordinates (coordinates : list A) : list A :=
  rev (Array_slice (-10) (-1) coordinates).

(** The local [ellipsis] of [toHtml]. *)
Definition toHtml_ellipsis (coordinates : list A) : string :=
  if (9 <? length coordinates)%nat then "<li>...</li>" else "".

End Html.

(** ** The heap: Route objects and their arrays

    [insertRoute] works on a copy of its argument, and [Route.add] pushes
    onto an array that a shallow copy shares, so objects live in a heap and
    are passed by reference.  A [Coordinate] is never written after its
    construction and is kept by value inside its array; so is a [Date]. *)

Definition loc : Type := positive.

(** The value of a property [id] typed [Number?]. *)
Inductive id_value : Type :=
| IdNull
| IdNum (n : Z).

(** An object with the properties of a [Route]: a [Route] instance, a spread
    copy of one, or a record read back from the store.  [obj_id = None] is an
    object without an own property [id] (reading it gives [undefined]). *)
Record object : Type := {
  obj_id : option id_value;
  obj_created : Date;
  obj_coordinates : loc;
}.

Inductive cell (number : Type) : Type :=
| Obj (o : object)
| Arr (items : list (Coordinate number)).
Arguments Obj {number} o.
Arguments Arr {number} items.

(** What an asynchronous call settles to. *)
Inductive settled (A : Type) : Type :=
| Resolved (a : A)
| Rejected (reason : string).
Arguments Resolved {A} a.
Arguments Rejected {A} reason.

(** The values a caller of [insertRoute] can be handed. *)
Inductive value : Type :=
| VUndefined
| VNumber (n : Z)
| VString (s : string).

(** ** The IndexedDB object store [routes]

    Created by [onupgradeneeded] (lines 206-215) with [keyPath: "id"] and
    [autoIncrement: true].  The model follows the Indexed Database API: a
    record is a structured clone stored under its key, the key is the value
    at the key path when the clone has one and the next number of the key
    generator otherwise, and [add] fails with a [ConstraintError] when the
    key is taken.  A request that succeeded is taken to commit. *)

Record DOMException : Type := {
  name : string;
  message : string;
}.

(** The errors of the store.  Their message texts are the browser's own;
    those of Chromium stand here. *)

(** [String(e)], which [+] applies to the error it concatenates. *)
Definition DOMException_toString (e : DOMException) : string :=
  if String.eqb (message e) "" then name e
  else name e +:+ ": " +:+ message e.

Definition ConstraintError : DOMException :=
  {| name := "ConstraintError";
     message := "Key already exists in the object store." |}.

Definition DataError : DOMException :=
  {| name := "DataError";
     message := "Evaluating the object store's key path yielded a value "
                +:+ "that is not a valid key." |}.

(** A structured clone of an object with the properties of a [Route]: the
    array is copied with it. *)
Record plain (number : Type) : Type := {
  plain_id : option id_value;
  plain_created : Date;
  plain_coordinates : list (Coordinate number);
}.
Arguments plain_id {number} _.
Arguments plain_created {number} _.
Arguments plain_coordinates {number} _.

(** A stored record: the clone with its key at the key path [id]. *)
Record record (number : Type) : Type := {
  rec_id : Z;
  rec_created : Date;
  rec_coordinates : list (Coordinate number);
}.
Arguments rec_id {number} _.
Arguments rec_created {number} _.
Arguments rec_coordinates {number} _.

(** The store: its records in ascending key order, as [getAll] returns
    them, and the current number of its key generator. *)
Record objectStore (number : Type) : Type := {
  records : list (record number);
  keygen : Z;
}.
Arguments records {number} _.
Arguments keygen {number} _.

Inductive add_outcome (number : Type) : Type :=
| AddThrows (e : DOMException)          (* [store.add] throws *)
| AddError (e : DOMException)           (* the request fires [onerror] *)
| AddSuccess (key : Z) (s : objectStore number). (* it fires [onsuccess] *)
Arguments AddThrows {number} e.
Arguments AddError {number} e.
Arguments AddSuccess {number} key s.

(** What the environment decides in one call: whether the open request
    fails (with the text of [event.target.errorCode]), whether the [add] or
    [getAll] request fails for a reason of the backend, and the clock. *)
Record env : Type := {
  open_errorCode : option string;
  request_fault : option DOMException;
  now : Date;
}.

(** The state of the program: the heap, the database [RoutesDB] ([None]
    until a first open creates it), and the number of connections that are
    open. *)
Record state (number : Type) : Type := {
  heap : gmap loc (cell number);
  routesDB : option (objectStore number);
  connections : nat;
}.
Arguments heap {number} _.
Arguments routesDB {number} _.
Arguments connections {number} _.

Section Store.
Context {number : Type}.

(** Allocation of a new object. *)
Definition alloc (c : cell number) (h : gmap loc (cell number))
  : loc * gmap loc (cell number) :=
  let l := fresh (dom h) in (l, <[l := c]> h).

(** The structured clone of the object at [l]. *)
Definition structuredClone (h : gmap loc (cell number)) (l : loc)
  : option (plain number) :=
  match h !! l with
  | Some (Obj o) =>
      match h !! obj_coordinates o with
      | Some (Arr items) =>
          Some {| plain_id := obj_id o;
                  plain_created := obj_created o;
                  plain_coordinates := items |}
      | _ => None
      end
  | _ => None
  end.

Definition keys (rs : list (record number)) : list Z := map rec_id rs.

(** Storing a record at its place in key order. *)
Fixpoint store_record (r : record number) (rs : list (record number))
  : list (record number) :=
  match rs with
  | [] => [r]
  | r' :: rs' =>
      if rec_id r <? rec_id r' then r :: rs
      else r' :: store_record r rs'
  end.

(** [store.add(value)] on the clone [value]. *)
Definition objectStore_add (fault : option DOMException)
    (value : plain number) (s : objectStore number) : add_outcome number :=
  match plain_id value with
  | Some IdNull => AddThrows DataError
  | id =>
      let key := match id with Some (IdNum n) => n | _ => keygen s end in
      let next :=
        match id with
        | Some (IdNum n) => if keygen s <=? n then n + 1 else keygen s
        | _ => keygen s + 1
        end in
      match fault with
      | Some e => AddError e
      | None =>
          if bool_decide (key ∈ keys (records s)) then AddError ConstraintError
          else AddSuccess key
                 {| records :=
                      store_record
                        {| rec_id := key;
                           rec_created := plain_created value;
                           rec_coordinates := plain_coordinates value |}
                        (records s);
                    keygen := next |}
      end
  end.

(** ** Route: construction and Route.fromPlainObject (lines 98-111, 180-186) *)

(** [new Route(id, created, coordinates)]: [None] is an argument that is
    [undefined] (for [id], the default [null] applies) or falsy. *)
Definition new_Route (id : option id_value) (created : option Date)
    (coordinates : option loc) (now : Date) (h : gmap loc (cell number))
  : loc * gmap loc (cell number) :=
  let '(coordinates, h) :=
    match coordinates with
    | Some l => (l, h)
    | None => alloc (Arr []) h
    end in
  alloc (Obj {| obj_id := Some (default IdNull id);
                obj_created := default now created;
                obj_coordinates := coordinates |}) h.

(** [Route.add] (lines 109-111): a push onto the array of the route. *)
Definition Route_add (this : loc) (lat lon : number) (now : Date)
    (h : gmap loc (cell number))
  : option (gmap loc (cell number)) :=
  match h !! this with
  | Some (Obj o) =>
      match h !! obj_coordinates o with
      | Some (Arr items) =>
          Some (<[obj_coordinates o :=
                    Arr (items ++ [new_Coordinate lat lon None now])]> h)
      | _ => None
      end
  | _ => None
  end.

(** [Route.fromPlainObject] (lines 180-186).  [None] when [obj] is not an
    object whose [coordinates] is an array (the source throws). *)
Definition fromPlainObject (obj : loc) (now : Date) (h : gmap loc (cell number))
  : option (loc * gmap loc (cell number)) :=
  match h !! obj with
  | Some (Obj o) =>
      match h !! obj_coordinates o with
      | Some (Arr items) =>
          let coordinates :=
            map (λ coord : Coordinate number,
                   new_Coordinate (lat coord) (lon coord)
                     (Some (timestamp coord)) now) items in
          let '(coordinates, h) := alloc (Arr coordinates) h in
          Some (new_Route (obj_id o) (Some (obj_created o))
                  (Some coordinates) now h)
      | _ => None
      end
  | _ => None
  end.

(** ** RouteDatabase (lines 189-276) *)

(** [#open] (lines 203-225): the request fails, or the database is created
    with its store if it is new and a connection is handed out. *)
Definition open (e : env) (σ : state number)
  : settled (objectStore number) * state number :=
  match open_errorCode e with
  | Some code => (Rejected ("Database error: " +:+ code), σ)
  | None =>
      let s := default {| records := []; keygen := 1 |} (routesDB σ) in
      (Resolved s,
       {| heap := heap σ; routesDB := Some s;
          connections := S (connections σ) |})
  end.

(** [db.close()]. *)
Definition close (σ : state number) : state number :=
  {| heap := heap σ; routesDB := routesDB σ;
     connections := pred (connections σ) |}.

(** [delete o.id]. *)
Definition delete_id (o : object) : object :=
  {| obj_id := None;
     obj_created := obj_created o;
     obj_coordinates := obj_coordinates o |}.

(** Lines 232-233 of [insertRoute]: the object that is handed to
    [store.add], a spread copy of the argument, without its [id] if that is
    [null]. *)
Definition insertRoute_copy (route : loc) (h : gmap loc (cell number))
  : option (loc * gmap loc (cell number)) :=
  match h !! route with
  | Some (Obj o) =>
      (* route = { ...route } *)
      let '(route, h) := alloc (Obj o) h in
      (* if (route.id === null) delete route.id *)
      let h :=
        match obj_id o with
        | Some IdNull => <[route := Obj (delete_id o)]> h
        | _ => h
        end in
      Some (route, h)
  | _ => None
  end.

(** The object at that copy: the argument's, without its [id] if [null]. *)
Definition handed (o : object) : object :=
  match obj_id o with
  | Some IdNull => delete_id o
  | _ => o
  end.

(** The promise of lines 235-252: what it settles to, and the state when it
    does. *)
Definition insertRoute_promise (route : loc) (e : env)
    (s : objectStore number) (σ : state number)
  : option (settled value * state number) :=
  value ← structuredClone (heap σ) route;
  Some
    match objectStore_add (request_fault e) value s with
    | AddThrows ex => (Rejected (DOMException_toString ex), σ)
    | AddError ex =>
        (Rejected ("Error adding route: " +:+ DOMException_toString ex),
         close σ)
    | AddSuccess key s' =>
        (Resolved (VString ("Route added with id: " +:+ pretty key)),
         close {| heap := heap σ; routesDB := Some s';
                  connections := connections σ |})
    end.

(** [RouteDatabase.insertRoute] (lines 231-253).  [None] when [route] is
    not an object with the properties of a [Route]. The function awaits its
    promise and returns nothing. *)
Definition insertRoute (route : loc) (e : env) (σ : state number)
  : option (settled value * state number) :=
  '(route, h) ← insertRoute_copy route (heap σ);
  let σ := {| heap := h; routesDB := routesDB σ;
              connections := connections σ |} in
  match open e σ with
  | (Rejected reason, σ) => Some (Rejected reason, σ)
  | (Resolved s, σ) =>
      '(result, σ) ← insertRoute_promise route e s σ;
      Some
        match result with
        | Rejected reason => (Rejected reason, σ)
        | Resolved _ => (Resolved VUndefined, σ)
        end
  end.

(** A record that [getAll] returns, as a new object with a new array. *)
Definition deserialize (r : record number) (h : gmap loc (cell number))
  : loc * gmap loc (cell number) :=
  let '(coordinates, h) := alloc (Arr (rec_coordinates r)) h in
  alloc (Obj {| obj_id := Some (IdNum (rec_id r));
                obj_created := rec_created r;
                obj_coordinates := coordinates |}) h.

(** [request.result.map((route) => Route.fromPlainObject(route))] over the
    records of [getAll]. *)
Fixpoint listRoutes_map (rs : list (record number)) (now : Date)
    (h : gmap loc (cell number))
  : option (list loc * gmap loc (cell number)) :=
  match rs with
  | [] => Some ([], h)
  | r :: rs' =>
      let '(obj, h) := deserialize r h in
      '(route, h) ← fromPlainObject obj now h;
      '(routes, h) ← listRoutes_map rs' now h;
      Some (route :: routes, h)
  end.

(** [RouteDatabase.listRoutes] (lines 259-275). *)
Definition listRoutes (e : env) (σ : state number)
  : option (settled (list loc) * state number) :=
  match open e σ with
  | (Rejected reason, σ) => Some (Rejected reason, σ)
  | (Resolved s, σ) =>
      match request_fault e with
      | Some ex =>
          Some (Rejected ("Error listing routes" +:+ DOMException_toString ex),
                σ)
      | None =>
          '(routes, h) ← listRoutes_map (records s) (now e) (heap σ);
          Some (Resolved routes,
                {| heap := h; routesDB := routesDB σ;
                   connections := connections σ |})
      end
  end.

(** The records that the database holds: none before it is created. *)
Definition records_of (σ : state number) : list (record number) :=
  match routesDB σ with
  | Some s => records s
  | None => []
  end.

End Store.

(** ** The statistics of updatePreviousRoutesList (lines 376-385) *)

(** The accumulator of the [reduce]. *)
Record Stats (number : Type) : Type := {
  totalLength : number;
  avgSpeedSum : number;
  avgSpeedCount : number;
  totalDuration : number;
}.
Arguments totalLength {number} _.
Arguments avgSpeedSum {number} _.
Arguments avgSpeedCount {number} _.
Arguments totalDuration {number} _.

Section Statistics.
Context {number : Type} `{JsNumber number}.
Local Open Scope num_scope.

(** The callback of the [reduce] (lines 377-383), on the array of points
    of the route [current]. *)
Definition stats_reducer (prev : Stats number)
    (current : list (Coordinate number)) : Stats number :=
  {| avgSpeedCount := avgSpeedCount prev + ofZ 1;
     avgSpeedSum := avgSpeedSum prev + getAvgSpeed current;
     totalDuration := totalDuration prev + getDuration current;
     totalLength := totalLength prev + getLength current |}.

(** The local [stats] (lines 375-385): the routes that [listRoutes]
    resolved with, reversed and reduced from the left. *)
Definition updatePreviousRoutesList_stats
    (routes : list (list (Coordinate number))) : Stats number :=
  fold_left stats_reducer (rev routes)
    {| totalLength := ofZ 0; avgSpeedSum := ofZ 0;
       avgSpeedCount := ofZ 0; totalDuration := ofZ 0 |}.

(** The mean speed that is displayed (line 393). *)
Definition updatePreviousRoutesList_average
    (routes : list (list (Coordinate number))) : number :=
  let stats := updatePreviousRoutesList_stats routes in
  avgSpeedSum stats / avgSpeedCount stats.

(** The test of line 399: a route gets an entry in the list of previous
    routes when it has more than one point. *)
Definition updatePreviousRoutesList_shown
    (route : list (Coordinate number)) : bool :=
  (1 <? length route)%nat.

End Statistics.

(** The sum of a metric over routes, in the real numbers. *)
Definition total (metric : list (Coordinate R) → R)
    (routes : list (list (Coordinate R))) : R :=
  fold_right Rplus 0%R (map metric routes).

(** ** The keys of the object store *)

Section StoreKeys.
Context {number : Type}.

(** What the store keeps true of its keys: they ascend strictly, so no key
    is held twice, and the key generator is above all of them. *)
Definition store_inv (s : objectStore number) : Prop :=
  StronglySorted Z.lt (keys (records s)) ∧
  Forall (λ key, key < keygen s) (keys (records s)).

Definition db_inv (σ : state number) : Prop :=
  match routesDB σ with
  | Some s => store_inv s
  | None => True
  end.

(** The key that the generator hands out next; 1 in a database that a
    first open has yet to create. *)
Definition next_key (σ : state number) : Z :=
  keygen (default {| records := []; keygen := 1 |} (routesDB σ)).

(** The [Route] that [listRoutes] rebuilds from a record: its key as
    [id], its [created] and its points. *)
Definition listed (r : record number) : plain number :=
  {| plain_id := Some (IdNum (rec_id r));
     plain_created := rec_created r;
     plain_coordinates := rec_coordinates r |}.

End StoreKeys.

(** ** The tracking session (lines 1-7 and 291-332)

    The globals of the page and what [toggleTracking] and the callbacks of
    [watchPosition] do to them.  The map, its marker and polyline, and the
    HTML that [updateRouteDescription] and [updatePreviousRoutesList] write
    are presentation and are left out; the two elements whose text
    [toggleTracking] sets are kept.  A call runs to its end before a
    position is delivered. *)

Record tracker (number : Type) : Type := {
  isTracking : bool;
  watchId : option Z;                     (* [null], or what [watchPosition] gave *)
  locationData : list (number * number);  (* the pairs [{lat, lng}] *)
  currentRoute : option loc;              (* [null], or the [Route] *)
  button_textContent : string;
  status_textContent : string;
  watches : list Z;                       (* the watches the browser holds *)
  alerts : list string;
  program : state number;
}.
Arguments isTracking {number} _.
Arguments watchId {number} _.
Arguments locationData {number} _.
Arguments currentRoute {number} _.
Arguments button_textContent {number} _.
Arguments status_textContent {number} _.
Arguments watches {number} _.
Arguments alerts {number} _.
Arguments program {number} _.

(** What the browser decides when tracking starts: whether [navigator] has
    [geolocation], the id that [watchPosition] returns, and the clock. *)
Record browser : Type := {
  geolocation : bool;
  next_watchId : Z;
  clock : Date;
}.

Section Tracking.
Context {number : Type}.

(** The success callback of [watchPosition] (lines 303-311), for a
    position delivered when the clock reads [now].  [None] when there is
    no current route (the source throws). *)
Definition watchPosition_success (latitude longitude : number) (now : Date)
    (t : tracker number) : option (tracker number) :=
  route ← currentRoute t;
  h ← Route_add route latitude longitude now (heap (program t));
  Some {| isTracking := isTracking t;
          watchId := watchId t;
          locationData := locationData t ++ [(latitude, longitude)];
          currentRoute := currentRoute t;
          button_textContent := button_textContent t;
          status_textContent := status_textContent t;
          watches := watches t;
          alerts := alerts t;
          program := {| heap := h;
                        routesDB := routesDB (program t);
                        connections := connections (program t) |} |}.

(** The error callback (lines 312-315). *)
Definition watchPosition_error (t : tracker number) : tracker number :=
  {| isTracking := isTracking t;
     watchId := watchId t;
     locationData := locationData t;
     currentRoute := currentRoute t;
     button_textContent := button_textContent t;
     status_textContent := "Error retrieving location";
     watches := watches t;
     alerts := alerts t;
     program := program t |}.

(** The positions of a session, each with the clock at its delivery. *)
Fixpoint deliver (positions : list (number * number * Date))
    (t : tracker number) : option (tracker number) :=
  match positions with
  | [] => Some t
  | (latitude, longitude, now) :: positions =>
      t ← watchPosition_success latitude longitude now t;
      deliver positions t
  end.

(** The [Coordinate] that [Route.add] makes of a delivered position. *)
Definition delivered (position : number * number * Date) : Coordinate number :=
  {| lat := position.1.1; lon := position.1.2; timestamp := position.2 |}.

(** [navigator.geolocation.clearWatch(watchId)]. *)
Definition clearWatch (id : option Z) (ws : list Z) : list Z :=
  match id with
  | Some w => List.filter (λ w', negb (w' =? w)) ws
  | None => ws
  end.

(** [toggleTracking] (lines 291-332).  [e_insert] and [e_list] are the
    environments of the calls of [insertRoute] and [listRoutes]; [None]
    when tracking is on without a current route. *)
Definition toggleTracking (b : browser) (e_insert e_list : env)
    (t : tracker number) : option (settled value * tracker number) :=
  if negb (isTracking t) then
    if geolocation b then
      let '(route, h) :=
        new_Route None None None (clock b) (heap (program t)) in
      Some (Resolved VUndefined,
            {| isTracking := true;
               watchId := Some (next_watchId b);
               locationData := locationData t;
               currentRoute := Some route;
               button_textContent := "Stop Tracking";
               status_textContent := "Tracking...";
               watches := next_watchId b :: watches t;
               alerts := alerts t;
               program := {| heap := h;
                             routesDB := routesDB (program t);
                             connections := connections (program t) |} |})
    else
      Some (Resolved VUndefined,
            {| isTracking := isTracking t;
               watchId := watchId t;
               locationData := locationData t;
               currentRoute := currentRoute t;
               button_textContent := button_textContent t;
               status_textContent := status_textContent t;
               watches := watches t;
               alerts :=
                 alerts t ++ ["Geolocation is not supported by your browser."];
               program := program t |})
  else
    route ← currentRoute t;
    (* await routeDb.insertRoute(currentRoute) *)
    '(inserted, σ) ← insertRoute route e_insert (program t);
    match inserted with
    | Rejected reason =>
        Some (Rejected reason,
              {| isTracking := isTracking t;
                 watchId := watchId t;
                 locationData := locationData t;
                 currentRoute := currentRoute t;
                 button_textContent := button_textContent t;
                 status_textContent := status_textContent t;
                 watches := watches t;
                 alerts := alerts t;
                 program := σ |})
    | Resolved _ =>
        (* navigator.geolocation.clearWatch(watchId) *)
        let ws := clearWatch (watchId t) (watches t) in
        (* await updatePreviousRoutesList() *)
        '(listing, σ) ← listRoutes e_list σ;
        match listing with
        | Rejected reason =>
            Some (Rejected reason,
                  {| isTracking := isTracking t;
                     watchId := watchId t;
                     locationData := locationData t;
                     currentRoute := currentRoute t;
                     button_textContent := button_textContent t;
                     status_textContent := status_textContent t;
                     watches := ws;
                     alerts := alerts t;
                     program := σ |})
        | Resolved _ =>
            Some (Resolved VUndefined,
                  {| isTracking := false;
                     watchId := watchId t;
                     locationData := locationData t;
                     currentRoute := currentRoute t;
                     button_textContent := "Start Tracking";
                     status_textContent := "Not tracking";
                     watches := ws;
                     alerts := alerts t;
                     program := σ |})
        end
    end.

End Tracking.

(** ** Example data *)

(** Two points, a minute apart, for the metrics over the real numbers. *)
Definition berlin : Coordinate R :=
  {| lat := 52%R; lon := 13%R; timestamp := 1700000000000 |}.

Definition potsdam : Coordinate R :=
  {| lat := 52.4%R; lon := 13.06%R; timestamp := 1700000060000 |}.

(** Two points with rational coordinates, for runs of the store. *)
Definition start : Coordinate Q :=
  {| lat := 52%Q; lon := 13%Q; timestamp := 1700000000000 |}.

Definition finish : Coordinate Q :=
  {| lat := (5201 # 100)%Q; lon := (1301 # 100)%Q;
     timestamp := 1700000060000 |}.

(** A [Route] with the given [id], whose array is at location 2. *)
Definition tracked (id : id_value) : object :=
  {| obj_id := Some id;
     obj_created := 1700000000000;
     obj_coordinates := 2%positive |}.

(** A session that has tracked one route: the [Route] at location 1 and
    its array of two points at location 2; no database yet, no connection
    open. *)
Definition session (id : id_value) : state Q :=
  {| heap := {[ 1%positive := Obj (tracked id);
                2%positive := Arr [start; finish] ]};
     routesDB := None;
     connections := 0 |}.

(** The session of a route without an id, after [insertRoute] stored it:
    the copy at location 3, and the record under the key 1. *)
Definition session_stored : state Q :=
  {| heap := <[3%positive := Obj (delete_id (tracked IdNull))]>
               (heap (session IdNull));
     routesDB :=
       Some {| records := [ {| rec_id := 1;
                               rec_created := 1700000000000;
                               rec_coordinates := [start; finish] |} ];
               keygen := 2 |};
     connections := 0 |}.

(** A session whose route comes with the id 1, over a store that holds a
    record under the key 1. *)
Definition session_taken : state Q :=
  {| heap := heap (session (IdNum 1));
     routesDB := routesDB session_stored;
     connections := 0 |}.

(** A third point, for a push onto the route. *)
Definition further : Coordinate Q :=
  {| lat := (5202 # 100)%Q; lon := (1302 # 100)%Q;
     timestamp := 1700000120000 |}.

(** An environment in which every request succeeds. *)
Definition online : env :=
  {| open_errorCode := None; request_fault := None; now := 1700000100000 |}.

(** An environment in which the open request is refused, as a browser
    without [errorCode] reports it, and one in which the request on the
    store fails. *)
Definition refused : env :=
  {| open_errorCode := Some "undefined";
     request_fault := None;
     now := 1700000100000 |}.

Definition failing : env :=
  {| open_errorCode := None;
     request_fault := Some {| name := "UnknownError"; message := "" |};
     now := 1700000100000 |}.

(** The page as it is loaded, a browser with geolocation, and a walk of
    two positions. *)
Definition page : tracker Q :=
  {| isTracking := false;
     watchId := None;
     locationData := [];
     currentRoute := None;
     button_textContent := "Start Tracking";
     status_textContent := "Not tracking";
     watches := [];
     alerts := [];
     program := {| heap := ∅; routesDB := None; connections := 0 |} |}.

Definition located : browser :=
  {| geolocation := true; next_watchId := 1; clock := 1700000000000 |}.

Definition walk : list (Q * Q * Date) :=
  [ (52%Q, 13%Q, 1700000000000);
    ((5201 # 100)%Q, (1301 # 100)%Q, 1700000060000) ].

(** The page while it tracks the route of the example session, and that
    page after a stop that the database refused: the copy of the route is
    in the heap, and nothing else has changed. *)
Definition tracking : tracker Q :=
  {| isTracking := true;
     watchId := Some 1;
     locationData := [(52%Q, 13%Q)];
     currentRoute := Some 1%positive;
     button_textContent := "Stop Tracking";
     status_textContent := "Tracking...";
     watches := [1];
     alerts := [];
     program := session IdNull |}.

Definition tracking_refused : tracker Q :=
  {| isTracking := true;
     watchId := Some 1;
     locationData := [(52%Q, 13%Q)];
     currentRoute := Some 1%positive;
     button_textContent := "Stop Tracking";
     status_textContent := "Tracking...";
     watches := [1];
     alerts := [];
     program :=
       {| heap := <[3%positive := Obj (delete_id (tracked IdNull))]>
                    (heap (session IdNull));
          routesDB := None;
          connections := 0 |} |}.

(** * Properties *)

(** ** humanizeSeconds *)

Section FormatFacts.
Import Format.

Lemma string_app_assoc (s1 s2 s3 : string) :
  (s1 +:+ s2) +:+ s3 = s1 +:+ (s2 +:+ s3).
Proof.
  induction s1 as [|a s1 IH]; [reflexivity |].
  change (String a ((s1 +:+ s2) +:+ s3) = String a (s1 +:+ s2 +:+ s3)).
  by rewrite IH.
Qed.

Lemma string_length_app (s1 s2 : string) :
  String.length (s1 +:+ s2) = (String.length s1 + String.length s2)%nat.
Proof.
  induction s1 as [|a s1 IH]; [reflexivity |].
  change (S (String.length (s1 +:+ s2)) =
          S (String.length s1 + String.length s2)).
  by rewrite IH.
Qed.

Lemma length_truthy_emit (str : string) (amount : Z) (unit : string) :
  truthy amount = true → length_truthy (emit str amount unit) = true.
Proof.
  intros Ht. unfold emit, length_truthy. rewrite Ht.
  rewrite !string_length_app. simpl.
  destruct (_ + (_ + S _))%nat eqn:E; [lia | reflexivity].
Qed.

(** Flooring a quotient by a positive integer divides the floor. *)
Lemma Math_floor_div (x : Q) (c : positive) :
  Math_floor (x / (Z.pos c # 1)) = Qfloor x / Z.pos c.
Proof.
  destruct x as [n d]. unfold Math_floor, Qfloor, Qdiv, Qinv, Qmult. simpl.
  rewrite Z.mul_1_r, Pos2Z.inj_mul.
  symmetry. apply Z.div_div; lia.
Qed.

(** The remainder of a non-negative number by a positive integer: it is
    non-negative, and its floor is the remainder of the floor. *)
Lemma js_rem_nonneg (x : Q) (c : positive) :
  0 ≤ Qnum x →
  0 ≤ Qnum (js_rem x (Z.pos c # 1)) ∧
  Qfloor (js_rem x (Z.pos c # 1)) = Qfloor x mod Z.pos c.
Proof.
  destruct x as [n d]. simpl. intros Hn.
  unfold js_rem, Qtrunc, Qfloor, Qdiv, Qinv, Qminus, Qplus, Qopp, Qmult,
    inject_Z. simpl.
  rewrite !Z.mul_1_r, Pos.mul_1_r, Pos2Z.inj_mul.
  rewrite Z.quot_div_nonneg by lia.
  set (k := n / (Z.pos d * Z.pos c)).
  assert (Hk : k = n / Z.pos d / Z.pos c)
    by (unfold k; symmetry; apply Z.div_div; lia).
  assert (Hle : Z.pos d * Z.pos c * k ≤ n)
    by (unfold k; apply Z.mul_div_le; lia).
  split; [nia |].
  replace (n + - (Z.pos c * k) * Z.pos d) with (n + (- (Z.pos c * k)) * Z.pos d)
    by reflexivity.
  rewrite Z.div_add by lia.
  rewrite Hk, Z.mod_eq by lia. lia.
Qed.

Lemma humanizeSeconds_body_emit (str unit : string) (x : Q) (c : positive) :
  humanizeSeconds_body (str, x) (unit, Z.pos c # 1) =
    (emit str (Qfloor x / Z.pos c) unit, js_rem x (Z.pos c # 1)).
Proof.
  unfold humanizeSeconds_body, emit. by rewrite Math_floor_div.
Qed.

(** The four iterations, on a non-negative number of seconds. *)
Lemma humanizeSeconds_unfold (number : Q) :
  0 ≤ Qnum number →
  let n := Qfloor number in
  humanizeSeconds number =
    emit (emit (emit (emit "" (n / 86400) "d")
                  (n mod 86400 / 3600) "h")
            (n mod 3600 / 60) "m")
      (n mod 60 / 1) "s".
Proof.
  intros H0 n. unfold humanizeSeconds, secondUnits. cbn [fold_left].
  destruct (js_rem_nonneg number 86400 H0) as [H1 F1].
  destruct (js_rem_nonneg _ 3600 H1) as [H2 F2].
  destruct (js_rem_nonneg _ 60 H2) as [H3 F3].
  rewrite !humanizeSeconds_body_emit. cbn [fst].
  rewrite F3, F2, F1. fold n.
  assert (E1 : (n mod 86400) mod 3600 = n mod 3600).
  { apply Z.mod_mod_divide.
    exists 24. reflexivity. }
  assert (E2 : (n mod 3600) mod 60 = n mod 60).
  { apply Z.mod_mod_divide.
    exists 60. reflexivity. }
  by rewrite E1, E2.
Qed.

(** A run of [emit]s joins the non-zero components by [", "], after what
    [string] already holds. *)
Lemma emit_run_concat (l : list (Z * string)) (str : string) :
  fold_left (λ s c, emit s (fst c) (snd c)) l str =
    match List.filter nonzero l with
    | [] => str
    | cs =>
        if length_truthy str
        then str +:+ ", " +:+ String.concat ", " (map render cs)
        else String.concat ", " (map render cs)
    end.
Proof.
  revert str. induction l as [|[a u] l IH]; intros str; [reflexivity |].
  cbn [fold_left List.filter fst snd]. rewrite IH. unfold nonzero at 2.
  cbn [fst]. change (negb (a =? 0)) with (truthy a).
  destruct (truthy a) eqn:Ha.
  - rewrite (length_truthy_emit _ _ _ Ha).
    unfold emit. rewrite Ha.
    change (pretty a +:+ " " +:+ u) with (render (a, u)).
    cbn [map String.concat].
    destruct (length_truthy str) eqn:Hs.
    + destruct (List.filter nonzero l) as [|c cs];
        rewrite ?string_app_assoc; reflexivity.
    + assert (str = "") as -> by (by destruct str).
      destruct (List.filter nonzero l) as [|c cs]; reflexivity.
  - unfold emit. by rewrite Ha.
Qed.

(** C9. [humanizeSeconds] splits a non-negative number of seconds into
    days, hours, minutes and seconds (divisors 86400, 3600, 60 and 1: the
    four amounts rebuild the whole seconds, with hours below 24 and minutes
    and seconds below 60), and prints the non-zero amounts in descending
    unit order, joined by [", "]; 3661 gives ["1 h, 1 m, 1 s"] and 0 gives
    the empty string. *)
Theorem humanizeSeconds_decomposes (seconds : Q) :
  (0 <= seconds)%Q →
  (∃ d h m s : Z,
      Qfloor seconds = 86400 * d + 3600 * h + 60 * m + 1 * s ∧
      0 ≤ d ∧ 0 ≤ h < 24 ∧ 0 ≤ m < 60 ∧ 0 ≤ s < 60 ∧
      humanizeSeconds seconds =
        String.concat ", "
          (map render
             (List.filter nonzero [(d, "d"); (h, "h"); (m, "m"); (s, "s")]))) ∧
  humanizeSeconds 3661 = "1 h, 1 m, 1 s" ∧
  humanizeSeconds 0 = "".
Proof.
  intros Hpos.
  assert (H0 : 0 ≤ Qnum seconds).
  { unfold Qle in Hpos. simpl in Hpos. lia. }
  split; [| split; vm_compute; reflexivity].
  set (n := Qfloor seconds).
  assert (Hn : 0 ≤ n).
  { unfold n. destruct seconds as [p q]. simpl in *.
    apply Z.div_pos; lia. }
  exists (n / 86400), (n mod 86400 / 3600), (n mod 3600 / 60), (n mod 60 / 1).
  repeat split.
  - pose proof (Z.div_mod n 86400 ltac:(lia)) as E1.
    pose proof (Z.div_mod (n mod 86400) 3600 ltac:(lia)) as E2.
    pose proof (Z.div_mod (n mod 3600) 60 ltac:(lia)) as E3.
    assert (E4 : (n mod 86400) mod 3600 = n mod 3600)
      by (apply Z.mod_mod_divide; exists 24; reflexivity).
    assert (E5 : (n mod 3600) mod 60 = n mod 60)
      by (apply Z.mod_mod_divide; exists 60; reflexivity).
    rewrite Z.div_1_r. lia.
  - apply Z.div_pos; lia.
  - apply Z.div_pos; [apply Z.mod_pos_bound |]; lia.
  - apply Z.div_lt_upper_bound; [lia |].
    pose proof (Z.mod_pos_bound n 86400 ltac:(lia)). lia.
  - apply Z.div_pos; [apply Z.mod_pos_bound |]; lia.
  - apply Z.div_lt_upper_bound; [lia |].
    pose proof (Z.mod_pos_bound n 3600 ltac:(lia)). lia.
  - rewrite Z.div_1_r. apply Z.mod_pos_bound; lia.
  - rewrite Z.div_1_r. apply Z.mod_pos_bound; lia.
  - rewrite (humanizeSeconds_unfold seconds H0). fold n.
    pose proof (emit_run_concat
                  [(n / 86400, "d"); (n mod 86400 / 3600, "h");
                   (n mod 3600 / 60, "m"); (n mod 60 / 1, "s")] "") as Hrun.
    cbn [fold_left fst snd] in Hrun. rewrite Hrun.
    by destruct (List.filter nonzero _).
Qed.

Lemma humanizeSeconds_decomposes_witness :
  (∃ d h m s : Z,
      Qfloor (183845123 # 1000) = 86400 * d + 3600 * h + 60 * m + 1 * s ∧
      0 ≤ d ∧ 0 ≤ h < 24 ∧ 0 ≤ m < 60 ∧ 0 ≤ s < 60 ∧
      humanizeSeconds (183845123 # 1000) =
        String.concat ", "
          (map render
             (List.filter nonzero [(d, "d"); (h, "h"); (m, "m"); (s, "s")]))) ∧
  humanizeSeconds 3661 = "1 h, 1 m, 1 s" ∧
  humanizeSeconds 0 = "".
Proof.
  apply (humanizeSeconds_decomposes (183845123 # 1000)).
  unfold Qle. simpl. lia.
Defined.

End FormatFacts.

(** ** haversine and the metrics *)

Section GeoFacts.
Context {number : Type} `{JsNumberLaws number}.
Local Open Scope num_scope.

(** The sine of a halved difference keeps its value or changes its sign
    when the difference is taken the other way round. *)
Lemma sin_half_sub_swap (x y : number) :
  Math_sin ((x - y) / ofZ 2) = - Math_sin ((y - x) / ofZ 2) ∨
  Math_sin ((x - y) / ofZ 2) = Math_sin ((y - x) / ofZ 2).
Proof.
  destruct (num_sub_swap x y) as [-> | ->]; [left | by right].
  rewrite num_div_neg_l. apply Math_sin_neg.
Qed.

(** Its square is the same both ways round. *)
Lemma sin_half_sub_square (x y : number) :
  Math_sin ((x - y) / ofZ 2) * Math_sin ((x - y) / ofZ 2) =
  Math_sin ((y - x) / ofZ 2) * Math_sin ((y - x) / ofZ 2).
Proof.
  destruct (sin_half_sub_swap x y) as [-> | ->]; [| reflexivity].
  apply num_mul_neg_neg.
Qed.

(** So is the square under a factor, multiplied in from the left as the
    source does. *)
Lemma mul_sin_half_sub_square (c x y : number) :
  c * Math_sin ((x - y) / ofZ 2) * Math_sin ((x - y) / ofZ 2) =
  c * Math_sin ((y - x) / ofZ 2) * Math_sin ((y - x) / ofZ 2).
Proof.
  destruct (sin_half_sub_swap x y) as [-> | ->]; [| reflexivity].
  rewrite (num_mul_neg_r c). apply num_mul_neg_neg.
Qed.

(** C8. [haversine] is symmetric: the distance from [pointA] to [pointB]
    is the distance from [pointB] to [pointA], in every arithmetic that
    satisfies [JsNumberLaws]. *)
Theorem haversine_symmetric (pointA pointB : Coordinate number) :
  haversine pointA pointB = haversine pointB pointA.
Proof.
  unfold haversine. cbv zeta.
  rewrite (sin_half_sub_square (lat pointB * Math_PI / ofZ 180)
             (lat pointA * Math_PI / ofZ 180)).
  rewrite (mul_sin_half_sub_square
             (Math_cos (lat pointA * Math_PI / ofZ 180) *
              Math_cos (lat pointB * Math_PI / ofZ 180))
             (lon pointB * Math_PI / ofZ 180)
             (lon pointA * Math_PI / ofZ 180)).
  rewrite (num_mul_comm (Math_cos (lat pointA * Math_PI / ofZ 180))
             (Math_cos (lat pointB * Math_PI / ofZ 180))).
  reflexivity.
Qed.

End GeoFacts.

(** The real numbers satisfy the laws. *)
#[export] Instance R_JsNumberLaws : JsNumberLaws R.
Proof.
  split; simpl; intros.
  - apply Rmult_comm.
  - left. lra.
  - unfold Rdiv. apply Ropp_mult_distr_l_reverse.
  - apply Ropp_mult_distr_r_reverse.
  - apply Rmult_opp_opp.
  - apply sin_neg.
Qed.

Lemma haversine_symmetric_witness :
  haversine berlin potsdam = haversine potsdam berlin.
Proof. apply (haversine_symmetric berlin potsdam). Defined.

Section MetricFacts.
Context {number : Type} `{JsNumber number}.

(** C6. A route with fewer than two points has length 0, duration 0 and
    average speed 0. *)
Theorem short_route_metrics_zero (coordinates : list (Coordinate number)) :
  (length coordinates < 2)%nat →
  getLength coordinates = ofZ 0 ∧
  getDuration coordinates = ofZ 0 ∧
  getAvgSpeed coordinates = ofZ 0.
Proof.
  intros Hlen. apply Nat.ltb_lt in Hlen.
  unfold getLength, getDuration, getAvgSpeed. by rewrite Hlen.
Qed.

End MetricFacts.

(** The metrics of a route of two points: one haversine distance, and the
    minute between the two timestamps. *)
Example getLength_two_points :
  getLength [berlin; potsdam] = (0 + haversine berlin potsdam)%R.
Proof. reflexivity. Qed.

Example getDuration_two_points : getDuration [berlin; potsdam] = 60%R.
Proof.
  unfold getDuration. simpl. unfold getTime. lra.
Qed.

Lemma short_route_metrics_zero_witness :
  getLength [berlin] = ofZ 0 ∧
  getDuration [berlin] = ofZ 0 ∧
  getAvgSpeed [berlin] = ofZ 0.
Proof. apply (short_route_metrics_zero [berlin]). simpl. lia. Defined.

(** ** The points that toHtml renders *)

Section HtmlFacts.
Context {A : Type}.

(** [slice(-10, -1)] never reaches the last element: of a route that ends
    with the point [p], [toHtml] renders the (up to) nine points before
    [p], the latest of them first. *)
Lemma toHtml_coordinates_snoc (coordinates : list A) (p : A) :
  toHtml_coordinates (coordinates ++ [p]) =
    rev (drop (length coordinates - 9) coordinates).
Proof.
  unfold toHtml_coordinates, Array_slice. f_equal.
  rewrite length_app. simpl length.
  change (-10 <? 0) with true. change (-1 <? 0) with true. cbv iota.
  set (n := length coordinates).
  replace (Z.to_nat (Z.max (Z.of_nat (n + 1) + -10) 0)) with (n - 9)%nat by lia.
  replace (Z.to_nat (Z.max (Z.of_nat (n + 1) + -1) 0 -
                     Z.max (Z.of_nat (n + 1) + -10) 0))
    with (n - (n - 9))%nat by lia.
  rewrite drop_app_le by (unfold n; lia).
  apply take_app_length'. rewrite length_drop. reflexivity.
Qed.

(** The ellipsis is there exactly for more than nine points. *)
Lemma toHtml_ellipsis_iff (coordinates : list A) :
  toHtml_ellipsis coordinates = "<li>...</li>" ↔ (9 < length coordinates)%nat.
Proof.
  unfold toHtml_ellipsis.
  destruct (9 <? length coordinates)%nat eqn:E.
  - apply Nat.ltb_lt in E. tauto.
  - apply Nat.ltb_ge in E. split; [discriminate | lia].
Qed.

End HtmlFacts.

(** C3. [toHtml] on a route whose only point is [berlin]: no point is
    rendered, the last-appended point of a non-empty route is left out; of
    the two points [berlin], [potsdam] only the older one is rendered. *)
Theorem toHtml_leaves_out_last_point :
  toHtml_coordinates [berlin] = [] ∧
  toHtml_coordinates [berlin; potsdam] = [berlin].
Proof. split; reflexivity. Qed.

(** ** The store *)

Section StoreFacts.
Context {number : Type}.
Implicit Types (h : gmap loc (cell number)) (σ : state number).
Implicit Types (o : object) (e : env) (s : objectStore number).

(** *** Allocation *)

Lemma alloc_spec (c : cell number) h :
  alloc c h = (fresh (dom h), <[fresh (dom h) := c]> h).
Proof. reflexivity. Qed.

Lemma fresh_lookup h : h !! fresh (dom h) = None.
Proof. apply not_elem_of_dom, is_fresh. Qed.

Lemma fresh_ne h (l : loc) (c : cell number) :
  h !! l = Some c → l ≠ fresh (dom h).
Proof. intros Hl ->. by rewrite fresh_lookup in Hl. Qed.

(** An allocation leaves every object of the heap as it is. *)
Lemma alloc_frame (c c' : cell number) h (l : loc) :
  h !! l = Some c' → (alloc c h).2 !! l = Some c'.
Proof.
  intros Hl. rewrite alloc_spec. simpl.
  rewrite lookup_insert_ne; [done |]. symmetry. by eapply fresh_ne.
Qed.

(** *** The copy that insertRoute hands to the store *)

Lemma insertRoute_copy_spec h (route : loc) o :
  h !! route = Some (Obj o) →
  insertRoute_copy route h =
    Some (fresh (dom h), <[fresh (dom h) := Obj (handed o)]> h).
Proof.
  intros Hr. unfold insertRoute_copy, handed. rewrite Hr, alloc_spec.
  destruct (obj_id o) as [[|n]|]; try reflexivity.
  by rewrite insert_insert_eq.
Qed.

Lemma handed_created o : obj_created (handed o) = obj_created o.
Proof. unfold handed. by destruct (obj_id o) as [[|?]|]. Qed.

Lemma handed_coordinates o : obj_coordinates (handed o) = obj_coordinates o.
Proof. unfold handed. by destruct (obj_id o) as [[|?]|]. Qed.

Lemma handed_id o :
  obj_id (handed o) =
    match obj_id o with Some IdNull => None | id => id end.
Proof. by destruct o as [[[|?]|] ? ?]. Qed.

(** The clone that [store.add] takes of the copy. *)
Lemma structuredClone_copy h (route : loc) o items :
  h !! route = Some (Obj o) →
  h !! obj_coordinates o = Some (Arr items) →
  structuredClone (<[fresh (dom h) := Obj (handed o)]> h) (fresh (dom h)) =
    Some {| plain_id := obj_id (handed o);
            plain_created := obj_created o;
            plain_coordinates := items |}.
Proof.
  intros Hr Hc. unfold structuredClone.
  rewrite lookup_insert_eq, handed_coordinates, handed_created.
  rewrite lookup_insert_ne by (symmetry; by eapply fresh_ne).
  by rewrite Hc.
Qed.

(** *** The object store *)

Lemma store_record_length (r : record number) rs :
  length (store_record r rs) = S (length rs).
Proof.
  induction rs as [|r' rs IH]; simpl; [done |].
  destruct (rec_id r <? rec_id r'); simpl; [done | by rewrite IH].
Qed.

Lemma store_record_perm (r : record number) rs :
  store_record r rs ≡ₚ r :: rs.
Proof.
  induction rs as [|r' rs IH]; simpl; [done |].
  destruct (rec_id r <? rec_id r'); [done |].
  rewrite IH. apply Permutation_swap.
Qed.

(** The outcomes of [add]: a [DataError] is thrown on a [null] key only; a
    success stores one record, the clone, under a key that was free. *)
Lemma objectStore_add_throws fault (value : plain number) s ex :
  objectStore_add fault value s = AddThrows ex →
  plain_id value = Some IdNull.
Proof.
  unfold objectStore_add.
  destruct (plain_id value) as [[|n]|]; [done | ..];
    destruct fault; try discriminate; case_bool_decide; discriminate.
Qed.

Lemma objectStore_add_error fault (value : plain number) s ex :
  objectStore_add fault value s = AddError ex →
  fault = Some ex ∨ ex = ConstraintError.
Proof.
  unfold objectStore_add.
  destruct (plain_id value) as [[|n]|]; [discriminate | ..];
    destruct fault; try (intros [= ->]; by left);
    case_bool_decide; try discriminate; intros [= <-]; by right.
Qed.

Lemma objectStore_add_success fault (value : plain number) s key s' :
  objectStore_add fault value s = AddSuccess key s' →
  fault = None ∧
  key = (match plain_id value with Some (IdNum n) => n | _ => keygen s end) ∧
  (key ∉ keys (records s)) ∧
  records s' =
    store_record {| rec_id := key;
                    rec_created := plain_created value;
                    rec_coordinates := plain_coordinates value |}
      (records s).
Proof.
  unfold objectStore_add.
  destruct (plain_id value) as [[|n]|]; [discriminate | ..];
    destruct fault; try discriminate;
    case_bool_decide; try discriminate; intros [= <- <-]; done.
Qed.

Lemma records_of_Some h s (c : nat) :
  records_of {| heap := h; routesDB := Some s; connections := c |} =
    records s.
Proof. reflexivity. Qed.

(** *** insertRoute, unfolded *)

(** The copy is never handed over with a [null] id. *)
Lemma handed_id_not_null o : obj_id (handed o) ≠ Some IdNull.
Proof. rewrite handed_id. by destruct (obj_id o) as [[|?]|]. Qed.

(** [insertRoute] on a [Route] in the heap, case by case. *)
Lemma insertRoute_unfold (route : loc) e σ o items :
  heap σ !! route = Some (Obj o) →
  heap σ !! obj_coordinates o = Some (Arr items) →
  let h' := <[fresh (dom (heap σ)) := Obj (handed o)]> (heap σ) in
  let value := {| plain_id := obj_id (handed o);
                  plain_created := obj_created o;
                  plain_coordinates := items |} in
  let s := default {| records := []; keygen := 1 |} (routesDB σ) in
  insertRoute route e σ =
    Some
      match open_errorCode e with
      | Some code =>
          (Rejected ("Database error: " +:+ code),
           {| heap := h'; routesDB := routesDB σ;
              connections := connections σ |})
      | None =>
          match objectStore_add (request_fault e) value s with
          | AddThrows ex =>
              (Rejected (DOMException_toString ex),
               {| heap := h'; routesDB := Some s;
                  connections := S (connections σ) |})
          | AddError ex =>
              (Rejected ("Error adding route: " +:+ DOMException_toString ex),
               {| heap := h'; routesDB := Some s;
                  connections := connections σ |})
          | AddSuccess key s' =>
              (Resolved VUndefined,
               {| heap := h'; routesDB := Some s';
                  connections := connections σ |})
          end
      end.
Proof.
  intros Hr Hc h' value s. unfold insertRoute.
  rewrite (insertRoute_copy_spec _ _ _ Hr). cbn [mbind option_bind].
  unfold open. cbn [heap routesDB connections].
  destruct (open_errorCode e) as [code|]; [reflexivity |].
  unfold insertRoute_promise. cbn [heap routesDB connections].
  rewrite (structuredClone_copy _ _ _ _ Hr Hc). cbn [mbind option_bind].
  fold h' value s.
  by destruct (objectStore_add (request_fault e) value s).
Qed.

(** Whatever the environment does, the connection that [insertRoute]
    opened is closed when it settles, and the heap only gains the copy. *)
Lemma insertRoute_settles (route : loc) e σ o items :
  heap σ !! route = Some (Obj o) →
  heap σ !! obj_coordinates o = Some (Arr items) →
  ∃ result σ',
    insertRoute route e σ = Some (result, σ') ∧
    heap σ' = <[fresh (dom (heap σ)) := Obj (handed o)]> (heap σ) ∧
    connections σ' = connections σ.
Proof.
  intros Hr Hc. rewrite (insertRoute_unfold _ e _ _ _ Hr Hc).
  destruct (open_errorCode e) as [code|]; [by eexists _, _ |].
  destruct (objectStore_add _ _ _) as [ex|ex|key s'] eqn:Hadd;
    try by eexists _, _.
  apply objectStore_add_throws in Hadd. simpl in Hadd.
  by apply handed_id_not_null in Hadd.
Qed.

(** *** Route.add and the shared array *)

(** A push through the [Route] is seen through every object that holds
    the same array, the copy of [insertRoute] among them. *)
Lemma Route_add_shared h (this other : loc) o o' items (lat lon : number)
    (now : Date) :
  h !! this = Some (Obj o) →
  h !! other = Some (Obj o') →
  obj_coordinates o' = obj_coordinates o →
  h !! obj_coordinates o = Some (Arr items) →
  ∃ h',
    Route_add this lat lon now h = Some h' ∧
    plain_coordinates <$> structuredClone h' other =
      Some (items ++ [new_Coordinate lat lon None now]).
Proof.
  intros Ht Ho Hsame Hc. unfold Route_add. rewrite Ht, Hc.
  eexists. split; [reflexivity |]. unfold structuredClone.
  rewrite lookup_insert_ne by congruence.
  rewrite Ho, Hsame. by rewrite lookup_insert_eq.
Qed.

(** *** Route.fromPlainObject *)

Lemma new_Coordinate_copy (coord : Coordinate number) (now : Date) :
  new_Coordinate (lat coord) (lon coord) (Some (timestamp coord)) now = coord.
Proof. by destruct coord. Qed.

Lemma map_new_Coordinate_copy (items : list (Coordinate number)) (now : Date) :
  map (λ coord : Coordinate number,
         new_Coordinate (lat coord) (lon coord) (Some (timestamp coord)) now)
    items = items.
Proof.
  induction items as [|c items IH]; simpl; [done |].
  by rewrite IH, new_Coordinate_copy.
Qed.

(** [fromPlainObject] builds a new [Route] with a new array: the
    properties of the object, [id] being [null] when the object has none,
    and the points of its array. *)
Lemma fromPlainObject_spec h (obj : loc) o items (now : Date) :
  h !! obj = Some (Obj o) →
  h !! obj_coordinates o = Some (Arr items) →
  ∃ route h',
    fromPlainObject obj now h = Some (route, h') ∧
    h !! route = None ∧
    structuredClone h' route =
      Some {| plain_id := Some (default IdNull (obj_id o));
              plain_created := obj_created o;
              plain_coordinates := items |} ∧
    ∀ l c, h !! l = Some c → h' !! l = Some c.
Proof.
  intros Ho Hc. unfold fromPlainObject. rewrite Ho, Hc.
  rewrite map_new_Coordinate_copy, alloc_spec.
  unfold new_Route. rewrite alloc_spec. cbn [default].
  set (la := fresh (dom h)).
  set (h1 := <[la := Arr items]> h).
  set (lr := fresh (dom h1)).
  assert (Hla : h !! la = None) by apply fresh_lookup.
  assert (Hlr : h1 !! lr = None) by apply fresh_lookup.
  assert (Hne : lr ≠ la).
  { intros E. rewrite E in Hlr. unfold h1 in Hlr.
    by rewrite lookup_insert_eq in Hlr. }
  eexists _, _. split; [reflexivity |]. split; [| split].
  - unfold h1 in Hlr. by rewrite lookup_insert_ne in Hlr.
  - unfold structuredClone. rewrite lookup_insert_eq. cbn [obj_coordinates].
    rewrite lookup_insert_ne by done. unfold h1.
    by rewrite lookup_insert_eq.
  - intros l c Hl.
    rewrite lookup_insert_ne by (intros <-; unfold h1 in Hlr;
      rewrite lookup_insert_ne in Hlr by done; congruence).
    unfold h1. rewrite lookup_insert_ne by congruence. done.
Qed.

(** Every record that [getAll] returns is rebuilt: [listRoutes_map] has a
    result, one route per record, and leaves the heap's objects alone. *)
Lemma listRoutes_map_total (rs : list (record number)) (now : Date) h :
  ∃ routes h',
    listRoutes_map rs now h = Some (routes, h') ∧
    length routes = length rs ∧
    ∀ l c, h !! l = Some c → h' !! l = Some c.
Proof.
  revert h. induction rs as [|r rs IH]; intros h.
  { by eexists _, _. }
  cbn [listRoutes_map]. unfold deserialize. rewrite !alloc_spec.
  set (la := fresh (dom h)).
  set (h1 := <[la := Arr (rec_coordinates r)]> h).
  set (lo := fresh (dom h1)).
  set (ob := {| obj_id := Some (IdNum (rec_id r));
                obj_created := rec_created r; obj_coordinates := la |}).
  set (h2 := <[lo := Obj ob]> h1).
  assert (Hlo : h1 !! lo = None) by apply fresh_lookup.
  assert (Hne : lo ≠ la).
  { intros E. rewrite E in Hlo. unfold h1 in Hlo.
    by rewrite lookup_insert_eq in Hlo. }
  assert (Hframe : ∀ l c, h !! l = Some c → h2 !! l = Some c).
  { intros l c Hl. unfold h2, h1.
    rewrite lookup_insert_ne
      by (intros <-; unfold h1 in Hlo;
          rewrite lookup_insert_ne in Hlo by done; congruence).
    rewrite lookup_insert_ne; [done |].
    intros <-. pose proof (fresh_lookup h) as Hf. fold la in Hf. congruence. }
  destruct (fromPlainObject_spec h2 lo ob (rec_coordinates r) now)
    as (route & h3 & -> & _ & _ & Hframe3).
  { unfold h2. by rewrite lookup_insert_eq. }
  { unfold h2, h1. cbn [obj_coordinates ob].
    rewrite lookup_insert_ne by done. by rewrite lookup_insert_eq. }
  cbn [mbind option_bind].
  destruct (IH h3) as (routes & h4 & -> & Hlen & Hframe4).
  cbn [mbind option_bind]. eexists _, _. split; [reflexivity |].
  split; [simpl; by rewrite Hlen | eauto].
Qed.

(** [listRoutes] closes nothing: when the database opens, the call settles
    with one more connection open than before. *)
Lemma listRoutes_connections e σ :
  open_errorCode e = None →
  ∃ result σ',
    listRoutes e σ = Some (result, σ') ∧
    connections σ' = S (connections σ).
Proof.
  intros Hopen. unfold listRoutes, open. rewrite Hopen.
  destruct (request_fault e) as [ex|]; [by eexists _, _ |].
  cbn [heap routesDB connections].
  destruct (listRoutes_map_total
              (records (default {| records := []; keygen := 1 |} (routesDB σ)))
              (now e) (heap σ)) as (routes & h' & -> & _).
  cbn [mbind option_bind]. by eexists _, _.
Qed.

End StoreFacts.

(** ** What insertRoute and listRoutes guarantee *)

Section RouteDatabaseFacts.
Context {number : Type}.
Implicit Types (h : gmap loc (cell number)) (σ : state number).
Implicit Types (o : object) (e : env) (s : objectStore number).

(** C1, as amended. [insertRoute] removes the [id] of its copy only when
    it is [null]: the record handed to the store has no [id] then, and a
    successful insert stores it under the next key of the generator.  A
    route with a non-null [id] is handed over with that [id], and a
    successful insert stores it under that very [id].  Either way the key
    was not in the store before. *)
Theorem insertRoute_strips_only_null_id (route : loc) e σ o items :
  heap σ !! route = Some (Obj o) →
  heap σ !! obj_coordinates o = Some (Arr items) →
  (∃ copy h' value,
      insertRoute_copy route (heap σ) = Some (copy, h') ∧
      structuredClone h' copy = Some value ∧
      plain_id value =
        match obj_id o with Some IdNull => None | id => id end) ∧
  ∀ v σ',
    insertRoute route e σ = Some (Resolved v, σ') →
    ∃ key,
      key = (match obj_id o with
             | Some (IdNum n) => n
             | _ => keygen (default {| records := []; keygen := 1 |}
                              (routesDB σ))
             end) ∧
      (key ∉ keys (records_of σ)) ∧
      records_of σ' =
        store_record {| rec_id := key;
                        rec_created := obj_created o;
                        rec_coordinates := items |}
          (records_of σ).
Proof.
  intros Hr Hc. split.
  - eexists _, _, _. split; [by apply insertRoute_copy_spec |].
    split; [by eapply structuredClone_copy |]. apply handed_id.
  - intros v σ'. rewrite (insertRoute_unfold _ e _ _ _ Hr Hc).
    destruct (open_errorCode e) as [code|]; [discriminate |].
    destruct (objectStore_add _ _ _) as [ex|ex|key s'] eqn:Hadd;
      try discriminate.
    intros [= <- <-].
    apply objectStore_add_success in Hadd as (_ & Hkey & Hfree & Hrec).
    cbn [plain_id plain_created plain_coordinates] in *.
    exists key. rewrite records_of_Some.
    assert (Hs : records (default {| records := []; keygen := 1 |}
                            (routesDB σ)) = records_of σ)
      by (unfold records_of; by destruct (routesDB σ)).
    rewrite Hs in Hfree, Hrec. split; [| done].
    rewrite Hkey, handed_id. by destruct (obj_id o) as [[|n]|].
Qed.

(** C2. The copy that [insertRoute] makes of a [Route], read back by
    [fromPlainObject], is a [Route] with the same [id], the same [created]
    and the same points (latitude, longitude and timestamp of each, in
    order). *)
Theorem fromPlainObject_roundtrip h (route : loc) o items (now : Date) :
  h !! route = Some (Obj o) →
  is_Some (obj_id o) →
  h !! obj_coordinates o = Some (Arr items) →
  ∃ copy h1 route' h2,
    insertRoute_copy route h = Some (copy, h1) ∧
    fromPlainObject copy now h1 = Some (route', h2) ∧
    structuredClone h route =
      Some {| plain_id := obj_id o;
              plain_created := obj_created o;
              plain_coordinates := items |} ∧
    structuredClone h2 route' = structuredClone h route.
Proof.
  intros Hr [id Hid] Hc.
  rewrite (insertRoute_copy_spec _ _ _ Hr).
  set (copy := fresh (dom h)).
  set (h1 := <[copy := Obj (handed o)]> h).
  destruct (fromPlainObject_spec h1 copy (handed o) items now)
    as (route' & h2 & Hfrom & _ & Hclone & _).
  { unfold h1. by rewrite lookup_insert_eq. }
  { unfold h1. rewrite handed_coordinates.
    rewrite lookup_insert_ne; [done |]. symmetry. by eapply fresh_ne. }
  exists copy, h1, route', h2. split; [done |]. split; [done |].
  assert (Hview : structuredClone h route =
                    Some {| plain_id := obj_id o;
                            plain_created := obj_created o;
                            plain_coordinates := items |})
    by (unfold structuredClone; by rewrite Hr, Hc).
  split; [done |].
  rewrite Hview, Hclone, handed_created, handed_id, Hid.
  by destruct id.
Qed.

(** C4, as amended. When [insertRoute] succeeds its result is
    [undefined]; the new record is in the store, and its key went no
    further than the message of the inner promise. *)
Theorem insertRoute_resolves_undefined (route : loc) e σ o items v σ' :
  heap σ !! route = Some (Obj o) →
  heap σ !! obj_coordinates o = Some (Arr items) →
  insertRoute route e σ = Some (Resolved v, σ') →
  v = VUndefined ∧
  length (records_of σ') = S (length (records_of σ)).
Proof.
  intros Hr Hc. rewrite (insertRoute_unfold _ e _ _ _ Hr Hc).
  destruct (open_errorCode e) as [code|]; [discriminate |].
  destruct (objectStore_add _ _ _) as [ex|ex|key s'] eqn:Hadd;
    try discriminate.
  intros [= <- <-]. split; [done |].
  apply objectStore_add_success in Hadd as (_ & _ & _ & Hrec).
  rewrite records_of_Some, Hrec, store_record_length.
  unfold records_of. by destruct (routesDB σ).
Qed.

(** The outcomes of [insertRoute], each with what decides it.  The call
    resolves exactly when the database opens, the [add] request meets no
    fault and the key is free, and then the store holds one record more,
    the whole route.  In every other case it rejects and the store holds
    the records it held; a rejected [add] names the error of the request,
    the [ConstraintError] exactly for a key that is taken, while a refused
    open is reported by the text of [event.target.errorCode] alone. *)
Lemma insertRoute_outcomes (route : loc) e σ o items :
  heap σ !! route = Some (Obj o) →
  heap σ !! obj_coordinates o = Some (Arr items) →
  let key := match obj_id o with Some (IdNum n) => n | _ => next_key σ end in
  let r := {| rec_id := key;
              rec_created := obj_created o;
              rec_coordinates := items |} in
  ∃ σ',
    connections σ' = connections σ ∧
    match open_errorCode e, request_fault e with
    | Some code, _ =>
        insertRoute route e σ =
          Some (Rejected ("Database error: " +:+ code), σ') ∧
        records_of σ' = records_of σ
    | None, Some ex =>
        insertRoute route e σ =
          Some (Rejected ("Error adding route: "
                          +:+ DOMException_toString ex), σ') ∧
        records_of σ' = records_of σ
    | None, None =>
        if bool_decide (key ∈ keys (records_of σ)) then
          insertRoute route e σ =
            Some (Rejected ("Error adding route: "
                            +:+ DOMException_toString ConstraintError), σ') ∧
          records_of σ' = records_of σ
        else
          insertRoute route e σ = Some (Resolved VUndefined, σ') ∧
          records_of σ' = store_record r (records_of σ)
    end.
Proof.
  intros Hr Hc key r. rewrite (insertRoute_unfold _ e _ _ _ Hr Hc).
  assert (Hs : records (default {| records := []; keygen := 1 |}
                          (routesDB σ)) = records_of σ)
    by (unfold records_of; by destruct (routesDB σ)).
  destruct (open_errorCode e) as [code|].
  { eexists. split; [| split; [reflexivity |]]; reflexivity. }
  unfold objectStore_add. cbn [plain_id plain_created plain_coordinates].
  rewrite handed_id, Hs. fold (next_key σ).
  assert (Hkey : match
                   match obj_id o with Some IdNull => None | id => id end
                 with Some (IdNum n) => n | _ => next_key σ end = key)
    by (unfold key; by destruct (obj_id o) as [[|n]|]).
  assert (Hnull : match obj_id o with Some IdNull => None | id => id end
                    ≠ Some IdNull)
    by (by destruct (obj_id o) as [[|n]|]).
  destruct (match obj_id o with Some IdNull => None | id => id end)
    as [[|n]|] eqn:Hid; [done | ..]; rewrite Hkey;
    (destruct (request_fault e) as [ex|];
     [| case_bool_decide ];
     eexists; (split; [| split; [reflexivity |]]);
     rewrite ?records_of_Some, ?Hs; reflexivity).
Qed.

(** C10. [insertRoute] does not write to its argument: it always
    settles, and then the [Route] it was given has the [id] (a [null] one
    too), the [created] and the array of points it had; so has every
    object that was in the heap. *)
Theorem insertRoute_preserves_argument (route : loc) e σ o items :
  heap σ !! route = Some (Obj o) →
  heap σ !! obj_coordinates o = Some (Arr items) →
  ∃ result σ',
    insertRoute route e σ = Some (result, σ') ∧
    heap σ' !! route = Some (Obj o) ∧
    heap σ' !! obj_coordinates o = Some (Arr items) ∧
    structuredClone (heap σ') route = structuredClone (heap σ) route ∧
    ∀ l c, heap σ !! l = Some c → heap σ' !! l = Some c.
Proof.
  intros Hr Hc.
  destruct (insertRoute_settles route e σ o items Hr Hc)
    as (result & σ' & Hrun & Hheap & _).
  exists result, σ'. split; [done |].
  assert (Hframe : ∀ l c, heap σ !! l = Some c → heap σ' !! l = Some c).
  { intros l c Hl. rewrite Hheap.
    rewrite lookup_insert_ne; [done |]. symmetry. by eapply fresh_ne. }
  split; [by apply Hframe |]. split; [by apply Hframe |]. split; [| done].
  unfold structuredClone.
  by rewrite (Hframe _ _ Hr), (Hframe _ _ Hc), Hr, Hc.
Qed.

End RouteDatabaseFacts.

(** ** Runs on the example session *)

(** C1: a route that comes in with the id 7.  The record handed to the
    store carries the id 7, and the insert stores it under the key 7, the
    id it came in with. *)
Lemma insertRoute_keeps_id_counterexample :
  ('(copy, h') ← insertRoute_copy 1%positive (heap (session (IdNum 7)));
   value ← structuredClone h' copy;
   Some (plain_id value)) = Some (Some (IdNum 7)) ∧
  ('(result, σ') ← insertRoute 1%positive online (session (IdNum 7));
   Some (result, keys (records_of σ'))) = Some (Resolved VUndefined, [7]).
Proof. split; vm_compute; reflexivity. Qed.

Lemma insertRoute_strips_only_null_id_witness :
  (∃ copy h' value,
      insertRoute_copy 1%positive (heap (session (IdNum 7))) =
        Some (copy, h') ∧
      structuredClone h' copy = Some value ∧
      plain_id value =
        match obj_id (tracked (IdNum 7)) with
        | Some IdNull => None
        | id => id
        end) ∧
  ∀ v σ',
    insertRoute 1%positive online (session (IdNum 7)) =
      Some (Resolved v, σ') →
    ∃ key,
      key = (match obj_id (tracked (IdNum 7)) with
             | Some (IdNum n) => n
             | _ => keygen (default {| records := []; keygen := 1 |}
                              (routesDB (session (IdNum 7))))
             end) ∧
      (key ∉ keys (records_of (session (IdNum 7)))) ∧
      records_of σ' =
        store_record {| rec_id := key;
                        rec_created := obj_created (tracked (IdNum 7));
                        rec_coordinates := [start; finish] |}
          (records_of (session (IdNum 7))).
Proof.
  exact (insertRoute_strips_only_null_id 1%positive online
           (session (IdNum 7)) (tracked (IdNum 7)) [start; finish]
           eq_refl eq_refl).
Defined.

Lemma fromPlainObject_roundtrip_witness :
  ∃ copy h1 route' h2,
    insertRoute_copy 1%positive (heap (session IdNull)) = Some (copy, h1) ∧
    fromPlainObject copy 1700000100000 h1 = Some (route', h2) ∧
    structuredClone (heap (session IdNull)) 1%positive =
      Some {| plain_id := obj_id (tracked IdNull);
              plain_created := obj_created (tracked IdNull);
              plain_coordinates := [start; finish] |} ∧
    structuredClone h2 route' =
      structuredClone (heap (session IdNull)) 1%positive.
Proof.
  exact (fromPlainObject_roundtrip (heap (session IdNull)) 1%positive
           (tracked IdNull) [start; finish] 1700000100000
           eq_refl (ex_intro _ IdNull eq_refl) eq_refl).
Defined.

(** C4: a route without an id.  The insert succeeds and the store assigns
    the id 1, but the result of the call is [undefined], not that id. *)
Lemma insertRoute_result_counterexample :
  insertRoute 1%positive online (session IdNull) =
    Some (Resolved VUndefined, session_stored) ∧
  keys (records_of session_stored) = [1] ∧
  Resolved VUndefined ≠ Resolved (VNumber 1).
Proof.
  split; [vm_compute; reflexivity |]. split; [reflexivity | discriminate].
Qed.

Lemma insertRoute_resolves_undefined_witness :
  VUndefined = VUndefined ∧
  length (records_of session_stored) = S (length (records_of (session IdNull))).
Proof.
  apply (insertRoute_resolves_undefined 1%positive online (session IdNull)
           (tracked IdNull) [start; finish] VUndefined session_stored).
  - reflexivity.
  - reflexivity.
  - vm_compute. reflexivity.
Defined.

(** C5. [insertRoute] on the example session when the open request is
    refused.  The call rejects, and the store holds what it held, with no
    connection left open; but the reason reads ["Database error: undefined"]:
    it is built from [event.target.errorCode], which an open request does
    not have, and carries nothing of the error of the request.  The handler
    of a failed [add] does carry it: on the session whose id is taken the
    reason ends in the [ConstraintError] of the request. *)
Theorem insertRoute_open_failure_reason :
  ('(result, σ') ← insertRoute 1%positive refused (session IdNull);
   Some (result, records_of σ', connections σ')) =
    Some (Rejected "Database error: undefined",
          records_of (session IdNull), connections (session IdNull)) ∧
  ('(result, σ') ← insertRoute 1%positive online session_taken;
   Some (result, records_of σ', connections σ')) =
    Some (Rejected ("Error adding route: "
                    +:+ DOMException_toString ConstraintError),
          records_of session_taken, connections session_taken).
Proof. split; vm_compute; reflexivity. Qed.

Lemma insertRoute_preserves_argument_witness :
  ∃ result σ',
    insertRoute 1%positive online (session IdNull) = Some (result, σ') ∧
    heap σ' !! 1%positive = Some (Obj (tracked IdNull)) ∧
    heap σ' !! obj_coordinates (tracked IdNull) = Some (Arr [start; finish]) ∧
    structuredClone (heap σ') 1%positive =
      structuredClone (heap (session IdNull)) 1%positive ∧
    ∀ l c, heap (session IdNull) !! l = Some c → heap σ' !! l = Some c.
Proof.
  exact (insertRoute_preserves_argument 1%positive online (session IdNull)
           (tracked IdNull) [start; finish] eq_refl eq_refl).
Defined.

(** C7. [listRoutes] on the example session, with no connection open
    before: the call resolves and leaves one connection open, where
    [insertRoute] leaves none. *)
Theorem listRoutes_leaves_connection_open :
  connections (session IdNull) = 0%nat ∧
  ('(result, σ') ← listRoutes online (session IdNull);
   Some (result, connections σ')) = Some (Resolved [], 1%nat) ∧
  ('(result, σ') ← insertRoute 1%positive online (session IdNull);
   Some (result, connections σ')) = Some (Resolved VUndefined, 0%nat).
Proof. split; [reflexivity | split; vm_compute; reflexivity]. Qed.

(** * Further properties *)

(** ** humanizeSeconds at the edges *)

Section FormatEdges.
Import Format.

Lemma string_app_nil_r (s : string) : s +:+ "" = s.
Proof.
  induction s as [|a s IH]; [reflexivity |].
  change (String a (s +:+ "") = String a s). by rewrite IH.
Qed.

(** Once [string] holds something, an iteration leaves it non-empty. *)
Lemma length_truthy_emit_mono (str : string) (amount : Z) (unit : string) :
  length_truthy str = true → length_truthy (emit str amount unit) = true.
Proof.
  intros Hs. unfold emit. destruct (truthy amount) eqn:Ha; [| done].
  rewrite Hs. unfold length_truthy in *. rewrite !string_length_app.
  destruct (String.length str); [done |]. reflexivity.
Qed.

(** The floor of a non-negative number is below 1 exactly when the number
    is. *)
Lemma Qfloor_zero_iff (x : Q) :
  (0 <= x)%Q → (Qfloor x = 0 ↔ (x < 1)%Q).
Proof.
  intros Hx. pose proof (Qfloor_le x) as Hle. pose proof (Qlt_floor x) as Hlt.
  split.
  - intros E. rewrite E in Hlt. exact Hlt.
  - intros H1.
    assert (H0 : 0 ≤ Qfloor x).
    { rewrite <- (Qfloor_Z 0). by apply Qfloor_resp_le. }
    assert (H2 : Qfloor x < 1).
    { destruct (Z_lt_le_dec (Qfloor x) 1) as [?|Hge]; [done |].
      exfalso. apply (Qlt_irrefl 1).
      apply Qle_lt_trans with x; [| done].
      apply Qle_trans with (inject_Z (Qfloor x)); [| done].
      change 1%Q with (inject_Z 1). rewrite <- Zle_Qle. lia. }
    lia.
Qed.

(** X1. A non-negative duration is printed as the empty string exactly
    when it is shorter than one second. *)
Theorem humanizeSeconds_empty_iff (seconds : Q) :
  (0 <= seconds)%Q →
  humanizeSeconds seconds = "" ↔ (seconds < 1)%Q.
Proof.
  intros Hpos.
  assert (H0 : 0 ≤ Qnum seconds).
  { unfold Qle in Hpos. simpl in Hpos. lia. }
  rewrite (humanizeSeconds_unfold seconds H0). cbv zeta.
  rewrite <- (Qfloor_zero_iff seconds Hpos).
  set (n := Qfloor seconds).
  assert (Hn : 0 ≤ n).
  { unfold n. rewrite <- (Qfloor_Z 0). by apply Qfloor_resp_le. }
  split.
  - intros Hempty.
    assert (Hall : truthy (n / 86400) = false ∧
                   truthy (n mod 86400 / 3600) = false ∧
                   truthy (n mod 3600 / 60) = false ∧
                   truthy (n mod 60 / 1) = false).
    { assert (Hne : ∀ s, length_truthy s = true → s ≠ "")
        by (intros s Hs ->; discriminate).
      destruct (truthy (n / 86400)) eqn:Ha.
      { exfalso. eapply Hne; [| exact Hempty].
        do 3 apply length_truthy_emit_mono. by apply length_truthy_emit. }
      destruct (truthy (n mod 86400 / 3600)) eqn:Hb.
      { exfalso. eapply Hne; [| exact Hempty].
        do 2 apply length_truthy_emit_mono. by apply length_truthy_emit. }
      destruct (truthy (n mod 3600 / 60)) eqn:Hc.
      { exfalso. eapply Hne; [| exact Hempty].
        apply length_truthy_emit_mono. by apply length_truthy_emit. }
      destruct (truthy (n mod 60 / 1)) eqn:Hd; [| done].
      exfalso. eapply Hne; [| exact Hempty]. by apply length_truthy_emit. }
    destruct Hall as (Ha & Hb & Hc & Hd).
    unfold truthy in *.
    apply negb_false_iff, Z.eqb_eq in Ha, Hb, Hc, Hd.
    rewrite Z.div_1_r in Hd.
    pose proof (Z.div_mod n 86400 ltac:(lia)) as E1.
    pose proof (Z.div_mod (n mod 86400) 3600 ltac:(lia)) as E2.
    pose proof (Z.div_mod (n mod 3600) 60 ltac:(lia)) as E3.
    assert (E4 : (n mod 86400) mod 3600 = n mod 3600)
      by (apply Z.mod_mod_divide; exists 24; reflexivity).
    assert (E5 : (n mod 3600) mod 60 = n mod 60)
      by (apply Z.mod_mod_divide; exists 60; reflexivity).
    lia.
  - intros ->. reflexivity.
Qed.

Lemma humanizeSeconds_empty_iff_witness :
  humanizeSeconds (999 # 1000) = "" ↔ (999 # 1000 < 1)%Q.
Proof.
  apply (humanizeSeconds_empty_iff (999 # 1000)). unfold Qle. simpl. lia.
Defined.

(** X2. The fraction of a second is dropped: a non-negative duration is
    printed as its whole seconds are. *)
Theorem humanizeSeconds_whole_seconds (seconds : Q) :
  (0 <= seconds)%Q →
  humanizeSeconds seconds = humanizeSeconds (inject_Z (Qfloor seconds)).
Proof.
  intros Hpos.
  assert (H0 : 0 ≤ Qnum seconds).
  { unfold Qle in Hpos. simpl in Hpos. lia. }
  assert (Hn : 0 ≤ Qfloor seconds).
  { rewrite <- (Qfloor_Z 0). by apply Qfloor_resp_le. }
  rewrite (humanizeSeconds_unfold seconds H0).
  rewrite (humanizeSeconds_unfold (inject_Z (Qfloor seconds)) Hn).
  cbv zeta. by rewrite Qfloor_Z.
Qed.

Lemma humanizeSeconds_whole_seconds_witness :
  humanizeSeconds (3661999 # 1000) = humanizeSeconds (inject_Z (Qfloor (3661999 # 1000))).
Proof.
  apply (humanizeSeconds_whole_seconds (3661999 # 1000)).
  unfold Qle. simpl. lia.
Defined.

(** An iteration only appends to [string]. *)
Lemma humanizeSeconds_body_prefix (st : string * Q) (entry : string * Q) :
  ∃ rest, fst (humanizeSeconds_body st entry) = fst st +:+ rest.
Proof.
  destruct st as [str x], entry as [unit c]. unfold humanizeSeconds_body.
  cbn [fst]. destruct (truthy _).
  - destruct (length_truthy str).
    + eexists. apply string_app_assoc.
    + by eexists.
  - exists "". by rewrite string_app_nil_r.
Qed.

Lemma humanizeSeconds_fold_prefix (l : list (string * Q)) (st : string * Q) :
  ∃ rest, fst (fold_left humanizeSeconds_body l st) = fst st +:+ rest.
Proof.
  revert st. induction l as [|entry l IH]; intros st; cbn [fold_left].
  { exists "". by rewrite string_app_nil_r. }
  destruct (IH (humanizeSeconds_body st entry)) as [rest ->].
  destruct (humanizeSeconds_body_prefix st entry) as [rest' ->].
  eexists. apply string_app_assoc.
Qed.

(** X3. A negative duration, as two timestamps out of order give, is
    printed with a negative number of days in front.  The duration is one
    that two time values can give: at least a millisecond, and at most the
    17280000000000 seconds between the two ends of the range of a [Date];
    over that range the exact quotient of the model and the rounded one of
    the source have the same floor. *)
Theorem humanizeSeconds_negative (seconds : Q) :
  (- (17280000000000 # 1) <= seconds)%Q →
  (seconds <= - (1 # 1000))%Q →
  ∃ (days : Z) (rest : string),
    days = Qfloor seconds / 86400 ∧ days < 0 ∧
    humanizeSeconds seconds = pretty days +:+ " d" +:+ rest.
Proof.
  intros _ Hms.
  assert (Hneg : (seconds < 0)%Q)
    by (apply Qle_lt_trans with (- (1 # 1000))%Q; [exact Hms | reflexivity]).
  assert (Hfl : Qfloor seconds < 0).
  { destruct (Z_lt_le_dec (Qfloor seconds) 0) as [?|Hge]; [done |].
    exfalso. apply (Qlt_irrefl 0).
    apply Qle_lt_trans with seconds; [| done].
    apply Qle_trans with (inject_Z (Qfloor seconds)); [| apply Qfloor_le].
    change 0%Q with (inject_Z 0). rewrite <- Zle_Qle. lia. }
  assert (Hdays : Qfloor seconds / 86400 < 0)
    by (apply Z.div_lt_upper_bound; lia).
  exists (Qfloor seconds / 86400).
  unfold humanizeSeconds, secondUnits. cbn [fold_left].
  rewrite (humanizeSeconds_body_emit "" "d" seconds 86400).
  destruct (humanizeSeconds_fold_prefix
              [("h", 3600%Q); ("m", 60%Q); ("s", 1%Q)]
              (emit "" (Qfloor seconds / 86400) "d",
               js_rem seconds (86400 # 1))) as [rest Hrest].
  exists rest. split; [done |]. split; [done |].
  cbn [fold_left] in Hrest. rewrite Hrest. cbn [fst].
  unfold emit, truthy.
  destruct (Qfloor seconds / 86400 =? 0) eqn:E; [apply Z.eqb_eq in E; lia |].
  cbn [negb length_truthy]. by rewrite !string_app_assoc.
Qed.

Lemma humanizeSeconds_negative_witness :
  ∃ (days : Z) (rest : string),
    days = Qfloor (- (60 # 1)) / 86400 ∧ days < 0 ∧
    humanizeSeconds (- (60 # 1)) = pretty days +:+ " d" +:+ rest.
Proof.
  apply (humanizeSeconds_negative (- (60 # 1)));
    unfold Qle; simpl; lia.
Defined.

End FormatEdges.

(** ** The metrics on longer routes *)

Section MetricShape.
Context {number : Type} `{JsNumber number}.
Local Open Scope num_scope.

Lemma getLength_body_app_l (l l' : list (Coordinate number))
    (totalDistance : number) (i : nat) :
  (i < length l)%nat →
  getLength_body (l ++ l') totalDistance i = getLength_body l totalDistance i.
Proof.
  intros Hi. unfold getLength_body.
  by rewrite !lookup_app_l by lia.
Qed.

Lemma getLength_fold_app_l (l l' : list (Coordinate number)) (idx : list nat)
    (totalDistance : number) :
  Forall (λ i, i < length l)%nat idx →
  fold_left (getLength_body (l ++ l')) idx totalDistance =
    fold_left (getLength_body l) idx totalDistance.
Proof.
  intros Hidx. revert totalDistance.
  induction Hidx as [|i idx Hi _ IH]; intros totalDistance; [done |].
  cbn [fold_left]. by rewrite getLength_body_app_l, IH.
Qed.

(** The early return of [getLength] agrees with its loop, which does not
    run on fewer than two points. *)
Lemma getLength_loop (coordinates : list (Coordinate number)) :
  getLength coordinates =
    fold_left (getLength_body coordinates)
      (seq 1 (length coordinates - 1)) (ofZ 0).
Proof.
  unfold getLength. destruct (length coordinates <? 2)%nat eqn:E; [| done].
  apply Nat.ltb_lt in E.
  replace (length coordinates - 1)%nat with 0%nat by lia. reflexivity.
Qed.

Lemma getLength_snoc (coordinates : list (Coordinate number))
    (p q : Coordinate number) :
  getLength ((coordinates ++ [p]) ++ [q]) =
    getLength (coordinates ++ [p]) + haversine p q.
Proof.
  rewrite !getLength_loop.
  set (l := coordinates ++ [p]).
  assert (Hl : length l = S (length coordinates))
    by (unfold l; rewrite length_app; simpl; lia).
  rewrite length_app. cbn [length].
  replace (length l + 1 - 1)%nat with ((length l - 1) + 1)%nat by lia.
  rewrite seq_app, fold_left_app. cbn [seq fold_left].
  rewrite getLength_fold_app_l.
  2:{ apply Forall_forall. intros i Hi%elem_of_seq. lia. }
  unfold getLength_body at 1.
  replace (1 + (length l - 1) - 1)%nat with (length coordinates) by lia.
  replace (1 + (length l - 1))%nat with (length l) by lia.
  rewrite (lookup_app_l l [q]) by lia.
  unfold l at 1. rewrite list_lookup_middle by done.
  by rewrite list_lookup_middle by done.
Qed.

Lemma zip_tail_snoc {A : Type} (l : list A) (p q : A) :
  zip ((l ++ [p]) ++ [q]) (tail ((l ++ [p]) ++ [q])) =
    zip (l ++ [p]) (tail (l ++ [p])) ++ [(p, q)].
Proof.
  destruct l as [|a l]; [reflexivity |]. cbn [app tail].
  revert a. induction l as [|b l IH]; intros a; [reflexivity |].
  change ((a, b) :: zip (b :: (l ++ [p]) ++ [q]) ((l ++ [p]) ++ [q]) =
          ((a, b) :: zip (b :: l ++ [p]) (l ++ [p])) ++ [(p, q)]).
  by rewrite IH.
Qed.

(** X4. [getLength] is the sum, from the left, of the haversine distances
    between each point and the next one. *)
Theorem getLength_consecutive (coordinates : list (Coordinate number)) :
  getLength coordinates =
    fold_left (λ total step, total + haversine (fst step) (snd step))
      (zip coordinates (tail coordinates)) (ofZ 0).
Proof.
  induction coordinates as [|q coordinates IH] using rev_ind; [reflexivity |].
  destruct coordinates as [|p coordinates _] using rev_ind; [reflexivity |].
  rewrite getLength_snoc, zip_tail_snoc, fold_left_app, <- IH.
  reflexivity.
Qed.

(** X5. A point appended to a route that has one adds its haversine
    distance from the last point to the length, and nothing else. *)
Theorem getLength_append (coordinates : list (Coordinate number))
    (p q : Coordinate number) :
  getLength (coordinates ++ [p; q]) =
    getLength (coordinates ++ [p]) + haversine p q.
Proof.
  replace (coordinates ++ [p; q]) with ((coordinates ++ [p]) ++ [q])
    by (by rewrite <- app_assoc).
  apply getLength_snoc.
Qed.

Lemma getDuration_ends (first last : Coordinate number)
    (between : list (Coordinate number)) :
  getDuration (first :: between ++ [last]) =
    (ofZ (timestamp last) - ofZ (timestamp first)) / ofZ 1000.
Proof.
  unfold getDuration, getTime. cbn [length]. rewrite length_app. cbn [length].
  replace (S (length between + 1) <? 2)%nat with false
    by (symmetry; apply Nat.ltb_ge; lia).
  replace (S (length between + 1) - 1)%nat with (S (length between)) by lia.
  change ((first :: between ++ [last]) !! S (length between))
    with ((between ++ [last]) !! length between).
  change ((first :: between ++ [last]) !! 0%nat) with (Some first).
  by rewrite list_lookup_middle by done.
Qed.

(** X6. [getDuration] reads the first and the last timestamp only: the
    points in between, and their order in time, do not change it. *)
Theorem getDuration_ignores_between (first last : Coordinate number)
    (between : list (Coordinate number)) :
  getDuration (first :: between ++ [last]) = getDuration [first; last].
Proof.
  rewrite (getDuration_ends first last between).
  symmetry. exact (getDuration_ends first last []).
Qed.

End MetricShape.

(** ** The metrics over the real numbers *)

Section RealMetrics.
Local Open Scope R_scope.

(** X7. Two points at the same latitude and longitude are at distance 0,
    whenever they were recorded. *)
Theorem haversine_same_place (pointA pointB : Coordinate R) :
  lat pointA = lat pointB →
  lon pointA = lon pointB →
  haversine pointA pointB = 0.
Proof.
  intros Hlat Hlon. unfold haversine. cbv zeta.
  cbn [ofZ num_add num_sub num_mul num_div Math_PI Math_sin Math_cos
       Math_sqrt Math_atan2 R_JsNumber].
  rewrite Hlat, Hlon.
  set (u := lat pointB * PI / 180). set (v := lon pointB * PI / 180).
  replace ((u - u) / 2) with 0 by lra.
  replace ((v - v) / 2) with 0 by lra.
  rewrite sin_0.
  replace (0 * 0 + cos u * cos u * 0 * 0) with 0 by ring.
  replace (1 - 0) with 1 by lra.
  rewrite sqrt_0, sqrt_1.
  unfold R_atan2. destruct (Rlt_dec 0 1) as [_ | Hn]; [| lra].
  replace (0 / 1) with 0 by lra. rewrite atan_0. lra.
Qed.

Lemma haversine_same_place_witness :
  haversine berlin
    {| lat := 52; lon := 13; timestamp := 1700000060000%Z |} = 0.
Proof.
  apply (haversine_same_place berlin
           {| lat := 52; lon := 13; timestamp := 1700000060000%Z |});
    reflexivity.
Defined.

(** X8. Timestamps are not checked for their order: when the last point
    of a route is stamped earlier than the first, the duration is
    negative. *)
Theorem getDuration_out_of_order (first last : Coordinate R)
    (between : list (Coordinate R)) :
  (timestamp last < timestamp first)%Z →
  getDuration (first :: between ++ [last]) < 0.
Proof.
  intros Hlt. rewrite (getDuration_ends first last between).
  cbn [ofZ num_sub num_div R_JsNumber].
  apply IZR_lt in Hlt. lra.
Qed.

Lemma getDuration_out_of_order_witness :
  getDuration (potsdam :: [] ++ [berlin]) < 0.
Proof.
  apply (getDuration_out_of_order potsdam berlin []). reflexivity.
Defined.

End RealMetrics.

(** ** Which points toHtml renders *)

Section HtmlShape.
Context {A : Type}.

Lemma rev_lookup (l : list A) (i : nat) :
  (i < length l)%nat → rev l !! i = l !! (length l - S i)%nat.
Proof.
  intros Hi. rewrite rev_alt. change (rev_append l []) with (reverse l).
  by apply reverse_lookup.
Qed.

(** X9. Of a route of [n] points [toHtml] renders [min 9 (n - 1)]: its
    item [i] is the point at index [n - 2 - i], so the list starts at the
    point before the last one and goes back in time. *)
Theorem toHtml_coordinates_shape (coordinates : list A) :
  let n := length coordinates in
  length (toHtml_coordinates coordinates) = (9 `min` (n - 1))%nat ∧
  ∀ i : nat, (i < 9 `min` (n - 1))%nat →
    toHtml_coordinates coordinates !! i = coordinates !! (n - 2 - i)%nat.
Proof.
  destruct coordinates as [|p coordinates _] using rev_ind.
  { split; [reflexivity | intros i Hi; simpl in Hi; lia]. }
  cbv zeta. rewrite toHtml_coordinates_snoc, length_app. cbn [length].
  set (n := length coordinates).
  assert (Hlen : length (drop (n - 9) coordinates) = (9 `min` n)%nat)
    by (rewrite length_drop; fold n; lia).
  replace (n + 1 - 1)%nat with n by lia.
  split; [by rewrite length_rev |].
  intros i Hi. rewrite rev_lookup by lia.
  rewrite Hlen, lookup_drop, lookup_app_l by (fold n; lia).
  f_equal. lia.
Qed.

End HtmlShape.

(** ** Routes in the heap *)

Section HeapShape.
Context {number : Type}.
Implicit Types (h : gmap loc (cell number)) (o : object).

(** X10. [Route.add] appends one point, stamped with the clock, to the
    end of the route's array; the [id] and [created] of the route stay, and
    no other object of the heap changes. *)
Theorem Route_add_appends h (this : loc) o items (lat lon : number)
    (now : Date) :
  h !! this = Some (Obj o) →
  h !! obj_coordinates o = Some (Arr items) →
  ∃ h',
    Route_add this lat lon now h = Some h' ∧
    structuredClone h' this =
      Some {| plain_id := obj_id o;
              plain_created := obj_created o;
              plain_coordinates :=
                items ++ [{| lat := lat; lon := lon; timestamp := now |}] |} ∧
    ∀ l, l ≠ obj_coordinates o → h' !! l = h !! l.
Proof.
  intros Ht Hc. unfold Route_add. rewrite Ht, Hc.
  eexists. split; [reflexivity |]. split.
  - unfold structuredClone.
    rewrite lookup_insert_ne by congruence.
    by rewrite Ht, lookup_insert_eq.
  - intros l Hl. by rewrite lookup_insert_ne.
Qed.

(** The cells that [fromPlainObject] allocates: a new array, and the new
    [Route] that holds it. *)
Lemma fromPlainObject_cells h (obj : loc) o items (now : Date) :
  h !! obj = Some (Obj o) →
  h !! obj_coordinates o = Some (Arr items) →
  ∃ array route,
    h !! array = None ∧ h !! route = None ∧ array ≠ route ∧
    fromPlainObject obj now h =
      Some (route,
            <[route := Obj {| obj_id := Some (default IdNull (obj_id o));
                              obj_created := obj_created o;
                              obj_coordinates := array |}]>
              (<[array := Arr items]> h)).
Proof.
  intros Ho Hc. unfold fromPlainObject. rewrite Ho, Hc.
  rewrite map_new_Coordinate_copy, alloc_spec.
  unfold new_Route. rewrite alloc_spec. cbn [default].
  set (array := fresh (dom h)).
  set (h1 := <[array := Arr items]> h).
  assert (Ha : h !! array = None) by apply fresh_lookup.
  assert (Hr : h1 !! fresh (dom h1) = None) by apply fresh_lookup.
  assert (Hne : array ≠ fresh (dom h1)).
  { intros E. rewrite <- E in Hr. unfold h1 in Hr.
    by rewrite lookup_insert_eq in Hr. }
  exists array, (fresh (dom h1)). split; [done |]. split; [| done].
  unfold h1 in Hr. by rewrite lookup_insert_ne in Hr.
Qed.

(** X11. The [Route] that [fromPlainObject] builds has an array of its
    own: a point added to it afterwards shows in the new route and leaves
    the object it was built from as it was. *)
Theorem fromPlainObject_own_array h (obj : loc) o items (lat lon : number)
    (now later : Date) :
  h !! obj = Some (Obj o) →
  h !! obj_coordinates o = Some (Arr items) →
  ∃ route h1 h2,
    fromPlainObject obj now h = Some (route, h1) ∧
    Route_add route lat lon later h1 = Some h2 ∧
    plain_coordinates <$> structuredClone h2 route =
      Some (items ++ [{| lat := lat; lon := lon; timestamp := later |}]) ∧
    structuredClone h2 obj = structuredClone h obj.
Proof.
  intros Ho Hc.
  destruct (fromPlainObject_cells h obj o items now Ho Hc)
    as (array & route & Ha & Hr & Hne & Hfrom).
  rewrite Hfrom. eexists _, _, _. split; [reflexivity |].
  unfold Route_add. rewrite lookup_insert_eq. cbn [obj_coordinates].
  rewrite lookup_insert_ne by done. rewrite lookup_insert_eq.
  split; [reflexivity |].
  assert (Hobj : obj ≠ array ∧ obj ≠ route) by (split; congruence).
  assert (Hcoords : obj_coordinates o ≠ array ∧ obj_coordinates o ≠ route)
    by (split; congruence).
  unfold structuredClone. split.
  - rewrite lookup_insert_ne by done. rewrite lookup_insert_eq.
    cbn [obj_coordinates]. by rewrite lookup_insert_eq.
  - rewrite !lookup_insert_ne by (by destruct Hobj).
    rewrite Ho. rewrite !lookup_insert_ne by (by destruct Hcoords).
    done.
Qed.

(** X12. The copy that [insertRoute] takes is shallow: a point pushed onto
    the route after the copy was taken, as while the database opens, is in
    the clone that [store.add] then takes of the copy. *)
Theorem insertRoute_copy_shares_array h (route : loc) o items
    (lat lon : number) (now : Date) :
  h !! route = Some (Obj o) →
  h !! obj_coordinates o = Some (Arr items) →
  ∃ copy h1 h2,
    insertRoute_copy route h = Some (copy, h1) ∧
    Route_add route lat lon now h1 = Some h2 ∧
    structuredClone h2 copy =
      Some {| plain_id := obj_id (handed o);
              plain_created := obj_created o;
              plain_coordinates :=
                items ++ [{| lat := lat; lon := lon; timestamp := now |}] |}.
Proof.
  intros Hr Hc. rewrite (insertRoute_copy_spec _ _ _ Hr).
  set (copy := fresh (dom h)).
  assert (Hroute : route ≠ copy) by (by eapply fresh_ne).
  assert (Hcoords : obj_coordinates o ≠ copy) by (by eapply fresh_ne).
  eexists _, _, _. split; [reflexivity |].
  unfold Route_add. rewrite lookup_insert_ne by done. rewrite Hr.
  rewrite lookup_insert_ne by done. rewrite Hc.
  split; [reflexivity |]. unfold structuredClone.
  rewrite lookup_insert_ne by done. rewrite lookup_insert_eq.
  rewrite handed_coordinates, handed_created.
  by rewrite lookup_insert_eq.
Qed.

End HeapShape.

(** ** The keys of the store under insertRoute *)

Section StoreKeysFacts.
Context {number : Type}.
Implicit Types (h : gmap loc (cell number)) (σ : state number).
Implicit Types (o : object) (e : env) (s : objectStore number).
Implicit Types (r : record number) (rs : list (record number)).

Lemma keys_store_record r rs :
  keys (store_record r rs) ≡ₚ rec_id r :: keys rs.
Proof.
  unfold keys. change (rec_id r :: map rec_id rs) with (map rec_id (r :: rs)).
  apply Permutation_map, store_record_perm.
Qed.

(** A record stored under a key that was free keeps the keys ascending. *)
Lemma store_record_sorted r rs :
  StronglySorted Z.lt (keys rs) →
  rec_id r ∉ keys rs →
  StronglySorted Z.lt (keys (store_record r rs)).
Proof.
  induction rs as [|r' rs IH]; intros Hsorted Hfree.
  { repeat constructor. }
  cbn [store_record]. unfold keys in Hsorted, Hfree. cbn [map] in Hsorted, Hfree.
  apply StronglySorted_cons in Hsorted as [Hall Hsorted].
  apply not_elem_of_cons in Hfree as [Hne Hfree].
  destruct (rec_id r <? rec_id r') eqn:E.
  - apply Z.ltb_lt in E. unfold keys. cbn [map].
    apply StronglySorted_cons. split.
    + constructor; [done |].
      eapply Forall_impl; [exact Hall |]. intros k Hk. simpl in Hk. lia.
    + apply StronglySorted_cons. by split.
  - apply Z.ltb_ge in E. unfold keys. cbn [map]. fold (keys (store_record r rs)).
    apply StronglySorted_cons. split; [| by apply IH].
    rewrite keys_store_record. constructor; [lia | done].
Qed.

(** Under a key above all others the record goes to the end. *)
Lemma store_record_last r rs :
  Forall (λ key, key < rec_id r) (keys rs) →
  store_record r rs = rs ++ [r].
Proof.
  induction rs as [|r' rs IH]; intros Hall; [reflexivity |].
  unfold keys in Hall. cbn [map] in Hall.
  apply Forall_cons in Hall as [Hlt Hall].
  cbn [store_record].
  destruct (rec_id r <? rec_id r') eqn:E; [apply Z.ltb_lt in E; lia |].
  cbn [app]. by rewrite IH.
Qed.

Lemma objectStore_add_keygen fault (value : plain number) s key s' :
  objectStore_add fault value s = AddSuccess key s' →
  key < keygen s' ∧ keygen s ≤ keygen s'.
Proof.
  unfold objectStore_add.
  destruct (plain_id value) as [[|n]|]; [discriminate | ..];
    destruct fault; try discriminate;
    case_bool_decide; try discriminate; intros [= <- <-]; cbn [keygen];
    try destruct (keygen s <=? n) eqn:E;
    try apply Z.leb_le in E; try apply Z.leb_gt in E; lia.
Qed.

(** A successful [add] keeps the invariant of the store. *)
Lemma objectStore_add_inv fault (value : plain number) s key s' :
  store_inv s →
  objectStore_add fault value s = AddSuccess key s' →
  store_inv s'.
Proof.
  intros [Hsorted Hbelow] Hadd.
  pose proof (objectStore_add_keygen _ _ _ _ _ Hadd) as [Hkey Hgen].
  apply objectStore_add_success in Hadd as (_ & _ & Hfree & Hrec).
  unfold store_inv. rewrite Hrec. split.
  - by apply store_record_sorted.
  - rewrite keys_store_record. constructor; [done |].
    eapply Forall_impl; [exact Hbelow |]. intros k Hk. simpl in Hk. lia.
Qed.

Lemma store_inv_empty : store_inv ({| records := []; keygen := 1 |} : objectStore number).
Proof. split; constructor. Qed.

Lemma db_inv_default σ :
  db_inv σ → store_inv (default {| records := []; keygen := 1 |} (routesDB σ)).
Proof.
  unfold db_inv. destruct (routesDB σ); [done |].
  intros _. apply store_inv_empty.
Qed.

Lemma records_default σ :
  records (default {| records := []; keygen := 1 |} (routesDB σ)) =
    records_of σ.
Proof. unfold records_of. by destruct (routesDB σ). Qed.

(** X13. [insertRoute] keeps the keys of the store in order: whatever the
    outcome, they still ascend strictly (no key is held twice) below the
    key generator. *)
Theorem insertRoute_keeps_store_inv (route : loc) e σ o items :
  db_inv σ →
  heap σ !! route = Some (Obj o) →
  heap σ !! obj_coordinates o = Some (Arr items) →
  ∃ result σ',
    insertRoute route e σ = Some (result, σ') ∧ db_inv σ'.
Proof.
  intros Hinv Hr Hc. rewrite (insertRoute_unfold _ e _ _ _ Hr Hc).
  apply db_inv_default in Hinv as Hs.
  destruct (open_errorCode e) as [code|]; [by eexists _, _ |].
  destruct (objectStore_add _ _ _) as [ex|ex|key s'] eqn:Hadd;
    try by eexists _, _.
  eexists _, _. split; [reflexivity |].
  unfold db_inv. cbn [routesDB]. by eapply objectStore_add_inv.
Qed.

(** A run of [insertRoute] keeps the invariant and every object of the
    heap. *)
Lemma insertRoute_run_inv (route : loc) e σ o items result σ' :
  db_inv σ →
  heap σ !! route = Some (Obj o) →
  heap σ !! obj_coordinates o = Some (Arr items) →
  insertRoute route e σ = Some (result, σ') →
  db_inv σ' ∧ ∀ l c, heap σ !! l = Some c → heap σ' !! l = Some c.
Proof.
  intros Hinv Hr Hc Hrun.
  destruct (insertRoute_settles route e σ o items Hr Hc)
    as (result' & σ'' & Hrun' & Hheap & _).
  rewrite Hrun in Hrun'. injection Hrun' as <- <-.
  split.
  - rewrite (insertRoute_unfold _ e _ _ _ Hr Hc) in Hrun.
    apply db_inv_default in Hinv as Hs.
    destruct (open_errorCode e) as [code|]; [by injection Hrun as <- <- |].
    destruct (objectStore_add _ _ _) as [ex|ex|key s'] eqn:Hadd;
      injection Hrun as <- <-; try done.
    unfold db_inv. cbn [routesDB]. by eapply objectStore_add_inv.
  - intros l c Hl. rewrite Hheap.
    rewrite lookup_insert_ne; [done |]. symmetry. by eapply fresh_ne.
Qed.

(** [insertRoute] on a route without an id, when nothing fails. *)
Lemma insertRoute_null_ok (route : loc) e σ o items :
  db_inv σ →
  heap σ !! route = Some (Obj o) →
  heap σ !! obj_coordinates o = Some (Arr items) →
  obj_id o = Some IdNull →
  open_errorCode e = None →
  request_fault e = None →
  insertRoute route e σ =
    Some (Resolved VUndefined,
          {| heap := <[fresh (dom (heap σ)) := Obj (handed o)]> (heap σ);
             routesDB :=
               Some {| records :=
                         records_of σ ++
                           [{| rec_id := next_key σ;
                               rec_created := obj_created o;
                               rec_coordinates := items |}];
                       keygen := next_key σ + 1 |};
             connections := connections σ |}).
Proof.
  intros Hinv Hr Hc Hid Hopen Hfault.
  rewrite (insertRoute_unfold _ e _ _ _ Hr Hc), Hopen, Hfault.
  apply db_inv_default in Hinv as [_ Hbelow].
  unfold objectStore_add. rewrite handed_id, Hid.
  cbn [plain_id plain_created plain_coordinates].
  fold (next_key σ). rewrite records_default in *.
  rewrite bool_decide_eq_false_2.
  2:{ intros Hin. rewrite Forall_forall in Hbelow.
      apply Hbelow in Hin. unfold next_key in Hin. lia. }
  by rewrite store_record_last.
Qed.

(** X14. Into a store that keeps its invariant, and when no request fails,
    a route without an id is always stored: under the next key of the
    generator, which is above every key in the store, at the end of the
    records; the generator moves on by one. *)
Theorem insertRoute_generates_key (route : loc) e σ o items :
  db_inv σ →
  heap σ !! route = Some (Obj o) →
  heap σ !! obj_coordinates o = Some (Arr items) →
  obj_id o = Some IdNull →
  open_errorCode e = None →
  request_fault e = None →
  ∃ σ',
    insertRoute route e σ = Some (Resolved VUndefined, σ') ∧
    Forall (λ key, key < next_key σ) (keys (records_of σ)) ∧
    records_of σ' =
      records_of σ ++ [{| rec_id := next_key σ;
                          rec_created := obj_created o;
                          rec_coordinates := items |}] ∧
    next_key σ' = next_key σ + 1.
Proof.
  intros Hinv Hr Hc Hid Hopen Hfault.
  rewrite (insertRoute_null_ok _ e _ _ _ Hinv Hr Hc Hid Hopen Hfault).
  eexists. split; [reflexivity |].
  apply db_inv_default in Hinv as [_ Hbelow].
  rewrite records_default in Hbelow. done.
Qed.

(** X15. A route that comes with an id the store already holds is turned
    down: the call rejects with the [ConstraintError] of the request, the
    records stay as they were, and the connection is closed. *)
Theorem insertRoute_rejects_taken_id (route : loc) e σ o items (n : Z) :
  heap σ !! route = Some (Obj o) →
  heap σ !! obj_coordinates o = Some (Arr items) →
  obj_id o = Some (IdNum n) →
  n ∈ keys (records_of σ) →
  open_errorCode e = None →
  request_fault e = None →
  ∃ σ',
    insertRoute route e σ =
      Some (Rejected ("Error adding route: "
                      +:+ DOMException_toString ConstraintError), σ') ∧
    records_of σ' = records_of σ ∧
    connections σ' = connections σ.
Proof.
  intros Hr Hc Hid Hin Hopen Hfault.
  rewrite (insertRoute_unfold _ e _ _ _ Hr Hc), Hopen, Hfault.
  unfold objectStore_add. rewrite handed_id, Hid.
  cbn [plain_id]. rewrite records_default.
  rewrite bool_decide_eq_true_2 by done.
  eexists. split; [reflexivity |]. split; [| done].
  rewrite records_of_Some. apply records_default.
Qed.

(** X16. The caller's route keeps its [null] id, so a second
    [insertRoute] of the same route stores it a second time: two records
    with the same [created] and points, under consecutive keys. *)
Theorem insertRoute_twice_duplicates (route : loc) e1 e2 σ o items :
  db_inv σ →
  heap σ !! route = Some (Obj o) →
  heap σ !! obj_coordinates o = Some (Arr items) →
  obj_id o = Some IdNull →
  open_errorCode e1 = None → request_fault e1 = None →
  open_errorCode e2 = None → request_fault e2 = None →
  ∃ σ1 σ2,
    insertRoute route e1 σ = Some (Resolved VUndefined, σ1) ∧
    insertRoute route e2 σ1 = Some (Resolved VUndefined, σ2) ∧
    records_of σ2 =
      records_of σ ++
        [{| rec_id := next_key σ;
            rec_created := obj_created o;
            rec_coordinates := items |};
         {| rec_id := next_key σ + 1;
            rec_created := obj_created o;
            rec_coordinates := items |}].
Proof.
  intros Hinv Hr Hc Hid Ho1 Hf1 Ho2 Hf2.
  pose proof (insertRoute_null_ok route e1 σ o items Hinv Hr Hc Hid Ho1 Hf1)
    as Heq1.
  destruct (insertRoute_run_inv _ _ _ _ _ _ _ Hinv Hr Hc Heq1)
    as [Hinv1 Hframe].
  pose proof (insertRoute_null_ok route e2 _ o items Hinv1
                (Hframe _ _ Hr) (Hframe _ _ Hc) Hid Ho2 Hf2) as Heq2.
  eexists _, _. split; [exact Heq1 |]. split; [exact Heq2 |].
  rewrite !records_of_Some. cbn [records].
  unfold next_key at 2. cbn [routesDB default keygen].
  rewrite <- app_assoc. reflexivity.
Qed.

End StoreKeysFacts.

(** ** What listRoutes returns *)

Section ListRoutesFacts.
Context {number : Type}.
Implicit Types (h : gmap loc (cell number)) (σ : state number).
Implicit Types (o : object) (e : env) (s : objectStore number).

(** A clone stays the same when the heap only grows. *)
Lemma structuredClone_frame h h' (l : loc) (p : plain number) :
  (∀ l c, h !! l = Some c → h' !! l = Some c) →
  structuredClone h l = Some p →
  structuredClone h' l = Some p.
Proof.
  intros Hframe. unfold structuredClone.
  destruct (h !! l) as [[o|items]|] eqn:Hl; try discriminate.
  destruct (h !! obj_coordinates o) as [[o'|items]|] eqn:Hc; try discriminate.
  by rewrite (Hframe _ _ Hl), (Hframe _ _ Hc).
Qed.

(** The routes that [listRoutes_map] builds, one per record and in the
    order of the records. *)
Lemma listRoutes_map_clones (rs : list (record number)) (now : Date) h :
  ∃ routes h',
    listRoutes_map rs now h = Some (routes, h') ∧
    map (structuredClone h') routes = map (λ r, Some (listed r)) rs ∧
    ∀ l c, h !! l = Some c → h' !! l = Some c.
Proof.
  revert h. induction rs as [|r rs IH]; intros h.
  { by eexists _, _. }
  cbn [listRoutes_map]. unfold deserialize. rewrite !alloc_spec.
  set (la := fresh (dom h)).
  set (h1 := <[la := Arr (rec_coordinates r)]> h).
  set (lo := fresh (dom h1)).
  set (ob := {| obj_id := Some (IdNum (rec_id r));
                obj_created := rec_created r; obj_coordinates := la |}).
  set (h2 := <[lo := Obj ob]> h1).
  assert (Hlo : h1 !! lo = None) by apply fresh_lookup.
  assert (Hne : lo ≠ la).
  { intros E. rewrite E in Hlo. unfold h1 in Hlo.
    by rewrite lookup_insert_eq in Hlo. }
  assert (Hframe : ∀ l c, h !! l = Some c → h2 !! l = Some c).
  { intros l c Hl. unfold h2, h1.
    rewrite lookup_insert_ne
      by (intros <-; unfold h1 in Hlo;
          rewrite lookup_insert_ne in Hlo by done; congruence).
    rewrite lookup_insert_ne; [done |].
    intros <-. pose proof (fresh_lookup h) as Hf. fold la in Hf. congruence. }
  destruct (fromPlainObject_spec h2 lo ob (rec_coordinates r) now)
    as (route & h3 & -> & _ & Hclone & Hframe3).
  { unfold h2. by rewrite lookup_insert_eq. }
  { unfold h2, h1. cbn [obj_coordinates ob].
    rewrite lookup_insert_ne by done. by rewrite lookup_insert_eq. }
  cbn [mbind option_bind].
  destruct (IH h3) as (routes & h4 & -> & Hclones & Hframe4).
  cbn [mbind option_bind]. eexists _, _. split; [reflexivity |].
  split; [| eauto]. cbn [map]. rewrite Hclones. f_equal.
  by apply (structuredClone_frame h3).
Qed.

(** [listRoutes] when no request fails. *)
Lemma listRoutes_unfold e σ :
  open_errorCode e = None →
  request_fault e = None →
  listRoutes e σ =
    '(routes, h) ← listRoutes_map (records_of σ) (now e) (heap σ);
    Some (Resolved routes,
          {| heap := h;
             routesDB :=
               Some (default {| records := []; keygen := 1 |} (routesDB σ));
             connections := S (connections σ) |}).
Proof.
  intros Hopen Hfault. unfold listRoutes, open. rewrite Hopen, Hfault.
  cbn [heap routesDB connections]. by rewrite records_default.
Qed.

(** X17. When no request fails, [listRoutes] resolves with one [Route]
    per record, in ascending key order: each has the key of its record as
    [id] and the [created] and points of the record.  The store and the
    objects that were in the heap are left as they were. *)
Theorem listRoutes_reconstructs e σ :
  open_errorCode e = None →
  request_fault e = None →
  ∃ routes σ',
    listRoutes e σ = Some (Resolved routes, σ') ∧
    map (structuredClone (heap σ')) routes =
      map (λ r, Some (listed r)) (records_of σ) ∧
    records_of σ' = records_of σ ∧
    ∀ l c, heap σ !! l = Some c → heap σ' !! l = Some c.
Proof.
  intros Hopen Hfault. unfold listRoutes, open. rewrite Hopen, Hfault.
  cbn [heap routesDB connections].
  destruct (listRoutes_map_clones
              (records (default {| records := []; keygen := 1 |} (routesDB σ)))
              (now e) (heap σ)) as (routes & h' & -> & Hclones & Hframe).
  cbn [mbind option_bind]. eexists _, _. split; [reflexivity |].
  cbn [heap]. rewrite records_of_Some.
  rewrite records_default in *. done.
Qed.

(** X18. [listRoutes] never closes the connection it opens: when the open
    request succeeds the call settles, resolved or rejected, with one
    more connection open than before and the records untouched. *)
Theorem listRoutes_never_closes e σ :
  open_errorCode e = None →
  ∃ result σ',
    listRoutes e σ = Some (result, σ') ∧
    connections σ' = S (connections σ) ∧
    records_of σ' = records_of σ.
Proof.
  intros Hopen. unfold listRoutes, open. rewrite Hopen.
  cbn [heap routesDB connections].
  destruct (request_fault e) as [ex|].
  { eexists _, _. split; [reflexivity |]. split; [done |].
    rewrite records_of_Some. apply records_default. }
  destruct (listRoutes_map_clones
              (records (default {| records := []; keygen := 1 |} (routesDB σ)))
              (now e) (heap σ)) as (routes & h' & -> & _).
  cbn [mbind option_bind]. eexists _, _. split; [reflexivity |].
  split; [done |]. rewrite records_of_Some. apply records_default.
Qed.

(** X19. [insertRoute] closes the connection it opens, on the path of
    success and on every path of failure: the call always settles with as
    many connections open as before. *)
Theorem insertRoute_closes_connection (route : loc) e σ o items :
  heap σ !! route = Some (Obj o) →
  heap σ !! obj_coordinates o = Some (Arr items) →
  ∃ result σ',
    insertRoute route e σ = Some (result, σ') ∧
    connections σ' = connections σ.
Proof.
  intros Hr Hc.
  destruct (insertRoute_settles route e σ o items Hr Hc)
    as (result & σ' & Hrun & _ & Hconn).
  by exists result, σ'.
Qed.

(** X20. A route stored without an id comes back from [listRoutes] as the
    last route, with the key it was given as its [id] and with the
    [created] and points it was stored with, while the caller's route still
    has the id [null]. *)
Theorem insertRoute_then_listRoutes (route : loc) e1 e2 σ o items :
  db_inv σ →
  heap σ !! route = Some (Obj o) →
  heap σ !! obj_coordinates o = Some (Arr items) →
  obj_id o = Some IdNull →
  open_errorCode e1 = None → request_fault e1 = None →
  open_errorCode e2 = None → request_fault e2 = None →
  ∃ σ1 routes σ2,
    insertRoute route e1 σ = Some (Resolved VUndefined, σ1) ∧
    listRoutes e2 σ1 = Some (Resolved routes, σ2) ∧
    length routes = S (length (records_of σ)) ∧
    (last routes ≫= structuredClone (heap σ2)) =
      Some {| plain_id := Some (IdNum (next_key σ));
              plain_created := obj_created o;
              plain_coordinates := items |} ∧
    structuredClone (heap σ2) route =
      Some {| plain_id := Some IdNull;
              plain_created := obj_created o;
              plain_coordinates := items |}.
Proof.
  intros Hinv Hr Hc Hid Ho1 Hf1 Ho2 Hf2.
  pose proof (insertRoute_null_ok route e1 σ o items Hinv Hr Hc Hid Ho1 Hf1)
    as Heq1.
  destruct (insertRoute_run_inv _ _ _ _ _ _ _ Hinv Hr Hc Heq1)
    as [_ Hframe1].
  set (σ1 := {| heap := <[fresh (dom (heap σ)) := Obj (handed o)]> (heap σ);
                routesDB :=
                  Some {| records :=
                            records_of σ ++
                              [{| rec_id := next_key σ;
                                  rec_created := obj_created o;
                                  rec_coordinates := items |}];
                          keygen := next_key σ + 1 |};
                connections := connections σ |}) in *.
  destruct (listRoutes_map_clones (records_of σ1) (now e2) (heap σ1))
    as (routes & h' & Hmap & Hclones & Hframe2).
  eexists σ1, routes, _. split; [done |].
  split; [by rewrite (listRoutes_unfold e2 σ1 Ho2 Hf2), Hmap |].
  cbn [heap].
  unfold σ1 in Hclones. rewrite records_of_Some in Hclones.
  cbn [records] in Hclones.
  assert (Hlen : length routes = S (length (records_of σ))).
  { apply (f_equal length) in Hclones.
    rewrite !length_map, length_app in Hclones. simpl in Hclones. lia. }
  split; [done |]. split.
  - destruct routes as [|r0 routes _] using rev_ind; [simpl in Hlen; lia |].
    rewrite last_snoc. cbn [mbind option_bind].
    rewrite !map_app in Hclones. cbn [map] in Hclones.
    apply app_inj_tail in Hclones as [_ Hlast]. exact Hlast.
  - apply (structuredClone_frame (heap σ)).
    + intros l c Hl. apply Hframe2. by apply Hframe1.
    + unfold structuredClone. by rewrite Hr, Hc, Hid.
Qed.

End ListRoutesFacts.

(** ** Further runs on the example session *)

Lemma Route_add_appends_witness :
  ∃ h',
    Route_add 1%positive (lat further) (lon further) (timestamp further)
      (heap (session IdNull)) = Some h' ∧
    structuredClone h' 1%positive =
      Some {| plain_id := obj_id (tracked IdNull);
              plain_created := obj_created (tracked IdNull);
              plain_coordinates :=
                [start; finish] ++
                  [{| lat := lat further; lon := lon further;
                      timestamp := timestamp further |}] |} ∧
    ∀ l, l ≠ obj_coordinates (tracked IdNull) →
         h' !! l = heap (session IdNull) !! l.
Proof.
  exact (Route_add_appends (heap (session IdNull)) 1%positive
           (tracked IdNull) [start; finish] (lat further) (lon further)
           (timestamp further) eq_refl eq_refl).
Defined.

Lemma fromPlainObject_own_array_witness :
  ∃ route h1 h2,
    fromPlainObject 1%positive 1700000100000 (heap (session IdNull)) =
      Some (route, h1) ∧
    Route_add route (lat further) (lon further) (timestamp further) h1 =
      Some h2 ∧
    plain_coordinates <$> structuredClone h2 route =
      Some ([start; finish] ++
              [{| lat := lat further; lon := lon further;
                  timestamp := timestamp further |}]) ∧
    structuredClone h2 1%positive =
      structuredClone (heap (session IdNull)) 1%positive.
Proof.
  exact (fromPlainObject_own_array (heap (session IdNull)) 1%positive
           (tracked IdNull) [start; finish] (lat further) (lon further)
           1700000100000 (timestamp further) eq_refl eq_refl).
Defined.

Lemma insertRoute_copy_shares_array_witness :
  ∃ copy h1 h2,
    insertRoute_copy 1%positive (heap (session IdNull)) = Some (copy, h1) ∧
    Route_add 1%positive (lat further) (lon further) (timestamp further) h1 =
      Some h2 ∧
    structuredClone h2 copy =
      Some {| plain_id := obj_id (handed (tracked IdNull));
              plain_created := obj_created (tracked IdNull);
              plain_coordinates :=
                [start; finish] ++
                  [{| lat := lat further; lon := lon further;
                      timestamp := timestamp further |}] |}.
Proof.
  exact (insertRoute_copy_shares_array (heap (session IdNull)) 1%positive
           (tracked IdNull) [start; finish] (lat further) (lon further)
           (timestamp further) eq_refl eq_refl).
Defined.

Lemma insertRoute_keeps_store_inv_witness :
  ∃ result σ',
    insertRoute 1%positive online session_stored = Some (result, σ') ∧
    db_inv σ'.
Proof.
  apply (insertRoute_keeps_store_inv 1%positive online session_stored
           (tracked IdNull) [start; finish]).
  - split; repeat constructor.
  - reflexivity.
  - reflexivity.
Defined.

Lemma insertRoute_generates_key_witness :
  ∃ σ',
    insertRoute 1%positive online session_stored =
      Some (Resolved VUndefined, σ') ∧
    Forall (λ key, key < next_key session_stored)
      (keys (records_of session_stored)) ∧
    records_of σ' =
      records_of session_stored ++
        [{| rec_id := next_key session_stored;
            rec_created := obj_created (tracked IdNull);
            rec_coordinates := [start; finish] |}] ∧
    next_key σ' = next_key session_stored + 1.
Proof.
  apply (insertRoute_generates_key 1%positive online session_stored
           (tracked IdNull) [start; finish]);
    try reflexivity.
  split; repeat constructor.
Defined.

Lemma insertRoute_rejects_taken_id_witness :
  ∃ σ',
    insertRoute 1%positive online session_taken =
      Some (Rejected ("Error adding route: "
                      +:+ DOMException_toString ConstraintError), σ') ∧
    records_of σ' = records_of session_taken ∧
    connections σ' = connections session_taken.
Proof.
  apply (insertRoute_rejects_taken_id 1%positive online session_taken
           (tracked (IdNum 1)) [start; finish] 1);
    try reflexivity.
  apply list_elem_of_here.
Defined.

Lemma insertRoute_twice_duplicates_witness :
  ∃ σ1 σ2,
    insertRoute 1%positive online (session IdNull) =
      Some (Resolved VUndefined, σ1) ∧
    insertRoute 1%positive online σ1 = Some (Resolved VUndefined, σ2) ∧
    records_of σ2 =
      records_of (session IdNull) ++
        [{| rec_id := next_key (session IdNull);
            rec_created := obj_created (tracked IdNull);
            rec_coordinates := [start; finish] |};
         {| rec_id := next_key (session IdNull) + 1;
            rec_created := obj_created (tracked IdNull);
            rec_coordinates := [start; finish] |}].
Proof.
  apply (insertRoute_twice_duplicates 1%positive online online
           (session IdNull) (tracked IdNull) [start; finish]);
    first [reflexivity | exact I].
Defined.

Lemma listRoutes_reconstructs_witness :
  ∃ routes σ',
    listRoutes online session_stored = Some (Resolved routes, σ') ∧
    map (structuredClone (heap σ')) routes =
      map (λ r, Some (listed r)) (records_of session_stored) ∧
    records_of σ' = records_of session_stored ∧
    ∀ l c, heap session_stored !! l = Some c → heap σ' !! l = Some c.
Proof.
  exact (listRoutes_reconstructs online session_stored eq_refl eq_refl).
Defined.

Lemma listRoutes_never_closes_witness :
  ∃ result σ',
    listRoutes online session_stored = Some (result, σ') ∧
    connections σ' = S (connections session_stored) ∧
    records_of σ' = records_of session_stored.
Proof. exact (listRoutes_never_closes online session_stored eq_refl). Defined.

Lemma insertRoute_closes_connection_witness :
  ∃ result σ',
    insertRoute 1%positive online session_taken = Some (result, σ') ∧
    connections σ' = connections session_taken.
Proof.
  exact (insertRoute_closes_connection 1%positive online session_taken
           (tracked (IdNum 1)) [start; finish] eq_refl eq_refl).
Defined.

Lemma insertRoute_then_listRoutes_witness :
  ∃ σ1 routes σ2,
    insertRoute 1%positive online (session IdNull) =
      Some (Resolved VUndefined, σ1) ∧
    listRoutes online σ1 = Some (Resolved routes, σ2) ∧
    length routes = S (length (records_of (session IdNull))) ∧
    (last routes ≫= structuredClone (heap σ2)) =
      Some {| plain_id := Some (IdNum (next_key (session IdNull)));
              plain_created := obj_created (tracked IdNull);
              plain_coordinates := [start; finish] |} ∧
    structuredClone (heap σ2) 1%positive =
      Some {| plain_id := Some IdNull;
              plain_created := obj_created (tracked IdNull);
              plain_coordinates := [start; finish] |}.
Proof.
  apply (insertRoute_then_listRoutes 1%positive online online
           (session IdNull) (tracked IdNull) [start; finish]);
    first [reflexivity | exact I].
Defined.

(** ** The statistics over the real numbers *)

Section StatisticsFacts.
Local Open Scope R_scope.

(** The route with the lowest key is reduced last. *)
Lemma updatePreviousRoutesList_stats_cons (route : list (Coordinate R))
    (routes : list (list (Coordinate R))) :
  updatePreviousRoutesList_stats (route :: routes) =
    stats_reducer (updatePreviousRoutesList_stats routes) route.
Proof.
  unfold updatePreviousRoutesList_stats. cbn [rev].
  by rewrite fold_left_app.
Qed.

(** The accumulator holds the sums over the routes, and their number. *)
Lemma updatePreviousRoutesList_stats_totals
    (routes : list (list (Coordinate R))) :
  totalLength (updatePreviousRoutesList_stats routes) =
    total getLength routes ∧
  totalDuration (updatePreviousRoutesList_stats routes) =
    total getDuration routes ∧
  avgSpeedSum (updatePreviousRoutesList_stats routes) =
    total getAvgSpeed routes ∧
  avgSpeedCount (updatePreviousRoutesList_stats routes) =
    INR (length routes).
Proof.
  induction routes as [|route routes (IHl & IHd & IHs & IHc)].
  { repeat split; reflexivity. }
  rewrite updatePreviousRoutesList_stats_cons.
  unfold stats_reducer, total in *.
  cbn [totalLength totalDuration avgSpeedSum avgSpeedCount map fold_right].
  cbn [num_add ofZ R_JsNumber]. rewrite IHl, IHd, IHs, IHc.
  repeat split; try apply Rplus_comm.
  cbn [length]. rewrite S_INR. reflexivity.
Qed.

(** X21. The mean speed of the history is the arithmetic mean of the
    average speeds of the routes that [listRoutes] returned: their sum
    over their number, not the total length over the total duration, which
    are summed on their own. *)
Theorem updatePreviousRoutesList_mean_of_speeds
    (routes : list (list (Coordinate R))) :
  updatePreviousRoutesList_average routes =
    total getAvgSpeed routes / INR (length routes) ∧
  totalLength (updatePreviousRoutesList_stats routes) =
    total getLength routes ∧
  totalDuration (updatePreviousRoutesList_stats routes) =
    total getDuration routes.
Proof.
  destruct (updatePreviousRoutesList_stats_totals routes)
    as (Hl & Hd & Hs & Hc).
  unfold updatePreviousRoutesList_average. cbn [num_div R_JsNumber].
  by rewrite Hs, Hc.
Qed.

Lemma total_shown (metric : list (Coordinate R) → R)
    (routes : list (list (Coordinate R))) :
  (∀ route, updatePreviousRoutesList_shown route = false → metric route = 0) →
  total metric (List.filter updatePreviousRoutesList_shown routes) =
    total metric routes.
Proof.
  intros Hzero. unfold total.
  induction routes as [|route routes IH]; [reflexivity |].
  cbn [List.filter map fold_right].
  destruct (updatePreviousRoutesList_shown route) eqn:E.
  - cbn [map fold_right]. by rewrite IH.
  - rewrite IH, (Hzero route E). lra.
Qed.

Lemma hidden_route_metrics (route : list (Coordinate R)) :
  updatePreviousRoutesList_shown route = false →
  getLength route = 0 ∧ getDuration route = 0 ∧ getAvgSpeed route = 0.
Proof.
  unfold updatePreviousRoutesList_shown. intros E%Nat.ltb_ge.
  assert (Hlt : (length route <? 2)%nat = true) by (apply Nat.ltb_lt; lia).
  unfold getLength, getDuration, getAvgSpeed. by rewrite Hlt.
Qed.

(** X22. The routes that the list of previous routes hides, those with
    fewer than two points, add nothing to the totals, yet they count in
    the divisor of the mean speed: the sums are those of the shown routes
    alone, the divisor is the number of all routes. *)
Theorem updatePreviousRoutesList_counts_hidden
    (routes : list (list (Coordinate R))) :
  let stats := updatePreviousRoutesList_stats routes in
  let shown := List.filter updatePreviousRoutesList_shown routes in
  totalLength stats = total getLength shown ∧
  totalDuration stats = total getDuration shown ∧
  avgSpeedSum stats = total getAvgSpeed shown ∧
  avgSpeedCount stats = INR (length routes).
Proof.
  cbv zeta.
  destruct (updatePreviousRoutesList_stats_totals routes)
    as (Hl & Hd & Hs & Hc).
  rewrite Hl, Hd, Hs, Hc.
  rewrite !total_shown; [done | ..];
    intros route Hroute; by apply hidden_route_metrics.
Qed.

End StatisticsFacts.

(** ** The tracking session *)

Section TrackingFacts.
Context {number : Type}.
Implicit Types (t : tracker number) (b : browser) (e : env).
Implicit Types (h : gmap loc (cell number)) (o : object).

(** Starting: a new [Route] without points, and a watch. *)
Lemma toggleTracking_start b e1 e2 t :
  isTracking t = false →
  geolocation b = true →
  ∃ array route,
    heap (program t) !! array = None ∧
    heap (program t) !! route = None ∧
    array ≠ route ∧
    toggleTracking b e1 e2 t =
      Some (Resolved VUndefined,
            {| isTracking := true;
               watchId := Some (next_watchId b);
               locationData := locationData t;
               currentRoute := Some route;
               button_textContent := "Stop Tracking";
               status_textContent := "Tracking...";
               watches := next_watchId b :: watches t;
               alerts := alerts t;
               program :=
                 {| heap :=
                      <[route := Obj {| obj_id := Some IdNull;
                                        obj_created := clock b;
                                        obj_coordinates := array |}]>
                        (<[array := Arr []]> (heap (program t)));
                    routesDB := routesDB (program t);
                    connections := connections (program t) |} |}).
Proof.
  intros Hoff Hgeo. unfold toggleTracking. rewrite Hoff, Hgeo. cbn [negb].
  unfold new_Route. rewrite !alloc_spec. cbn [default].
  set (h := heap (program t)).
  set (array := fresh (dom h)).
  set (h1 := <[array := Arr []]> h).
  assert (Ha : h !! array = None) by apply fresh_lookup.
  assert (Hr : h1 !! fresh (dom h1) = None) by apply fresh_lookup.
  assert (Hne : array ≠ fresh (dom h1)).
  { intros E. rewrite <- E in Hr. unfold h1 in Hr.
    by rewrite lookup_insert_eq in Hr. }
  exists array, (fresh (dom h1)). split; [done |]. split; [| done].
  unfold h1 in Hr. by rewrite lookup_insert_ne in Hr.
Qed.

(** Delivering positions to a session: each is pushed onto the array of
    the current route and onto [locationData]; nothing else changes. *)
Lemma deliver_spec (positions : list (number * number * Date)) t
    (route : loc) o items :
  currentRoute t = Some route →
  heap (program t) !! route = Some (Obj o) →
  heap (program t) !! obj_coordinates o = Some (Arr items) →
  deliver positions t =
    Some {| isTracking := isTracking t;
            watchId := watchId t;
            locationData :=
              locationData t ++ map (λ p, (p.1.1, p.1.2)) positions;
            currentRoute := currentRoute t;
            button_textContent := button_textContent t;
            status_textContent := status_textContent t;
            watches := watches t;
            alerts := alerts t;
            program :=
              {| heap := <[obj_coordinates o :=
                             Arr (items ++ map delivered positions)]>
                           (heap (program t));
                 routesDB := routesDB (program t);
                 connections := connections (program t) |} |}.
Proof.
  revert t items. induction positions as [|[[latitude longitude] now] ps IH];
    intros t items Hcur Hr Hc.
  - cbn [deliver map]. rewrite !app_nil_r. rewrite insert_id by done.
    destruct t as [? ? ? ? ? ? ? ? []]. reflexivity.
  - cbn [deliver]. unfold watchPosition_success. rewrite Hcur.
    cbn [mbind option_bind]. unfold Route_add. rewrite Hr, Hc.
    cbn [mbind option_bind].
    assert (Hne : route ≠ obj_coordinates o) by congruence.
    rewrite (IH _ (items ++ [new_Coordinate latitude longitude None now])).
    + cbn [isTracking watchId locationData currentRoute button_textContent
           status_textContent watches alerts program heap routesDB
           connections map].
      rewrite insert_insert_eq, <- !app_assoc. reflexivity.
    + done.
    + cbn [program heap]. by rewrite lookup_insert_ne.
    + cbn [program heap]. by rewrite lookup_insert_eq.
Qed.

(** X23. A whole session, when no request fails: tracking is started, the
    positions are delivered, tracking is stopped.  The store then holds
    one record more, at the end and under the generator's next key, with
    the time of the start as [created] and the delivered positions, in the
    order and with the clock of their delivery, as points; the watch is
    cleared, the flag is off, and one connection is left open. *)
Theorem tracking_session_stores_route b e1 e2 t
    (positions : list (number * number * Date)) :
  isTracking t = false →
  geolocation b = true →
  db_inv (program t) →
  open_errorCode e1 = None → request_fault e1 = None →
  open_errorCode e2 = None → request_fault e2 = None →
  ∃ t1 t2 t3,
    toggleTracking b e1 e2 t = Some (Resolved VUndefined, t1) ∧
    deliver positions t1 = Some t2 ∧
    toggleTracking b e1 e2 t2 = Some (Resolved VUndefined, t3) ∧
    records_of (program t3) =
      records_of (program t) ++
        [{| rec_id := next_key (program t);
            rec_created := clock b;
            rec_coordinates := map delivered positions |}] ∧
    isTracking t3 = false ∧
    button_textContent t3 = "Start Tracking" ∧
    watches t3 = clearWatch (Some (next_watchId b))
                   (next_watchId b :: watches t) ∧
    connections (program t3) = S (connections (program t)).
Proof.
  intros Hoff Hgeo Hinv Ho1 Hf1 Ho2 Hf2.
  destruct (toggleTracking_start b e1 e2 t Hoff Hgeo)
    as (array & route & Ha & Hr & Hne & Hstart).
  set (ob := {| obj_id := Some IdNull; obj_created := clock b;
                obj_coordinates := array |}) in *.
  match type of Hstart with _ = Some (_, ?x) => set (t1 := x) in * end.
  assert (Hr1 : heap (program t1) !! route = Some (Obj ob)).
  { cbn [t1 program heap]. by rewrite lookup_insert_eq. }
  assert (Hc1 : heap (program t1) !! obj_coordinates ob = Some (Arr [])).
  { cbn [t1 program heap obj_coordinates ob].
    rewrite lookup_insert_ne by done. by rewrite lookup_insert_eq. }
  pose proof (deliver_spec positions t1 route ob [] eq_refl Hr1 Hc1) as Hdel.
  cbn [app] in Hdel.
  match type of Hdel with _ = Some ?x => set (t2 := x) in * end.
  assert (Hr2 : heap (program t2) !! route = Some (Obj ob)).
  { cbn [t2 program heap]. rewrite lookup_insert_ne; [done |].
    cbn [obj_coordinates ob]. done. }
  assert (Hc2 : heap (program t2) !! obj_coordinates ob =
                  Some (Arr (map delivered positions))).
  { cbn [t2 program heap]. by rewrite lookup_insert_eq. }
  assert (Hinv2 : db_inv (program t2)) by exact Hinv.
  pose proof (insertRoute_null_ok route e1 (program t2) ob _ Hinv2 Hr2 Hc2
                eq_refl Ho1 Hf1) as Hins.
  match type of Hins with _ = Some (_, ?x) => set (σ3 := x) in * end.
  destruct (listRoutes_map_clones (records_of σ3) (now e2) (heap σ3))
    as (routes & h4 & Hmap & _).
  pose proof (listRoutes_unfold e2 σ3 Ho2 Hf2) as Hlist.
  rewrite Hmap in Hlist. cbn [mbind option_bind] in Hlist.
  exists t1, t2. eexists. split; [exact Hstart |]. split; [exact Hdel |].
  unfold toggleTracking at 1.
  change (isTracking t2) with true. change (currentRoute t2) with (Some route).
  cbn [negb mbind option_bind]. rewrite Hins. cbn [mbind option_bind].
  rewrite Hlist. cbn [mbind option_bind].
  split; [reflexivity |].
  cbn [program isTracking button_textContent watches].
  repeat split; reflexivity.
Qed.

(** X24. A stop that fails leaves the page tracking: whenever
    [toggleTracking] rejects, the flag is still on, the button and the
    status read as before, and the current route is still the same, so the
    next click tries to store it again. *)
Theorem toggleTracking_rejected_keeps_tracking b e1 e2 t reason t' :
  toggleTracking b e1 e2 t = Some (Rejected reason, t') →
  isTracking t = true ∧
  isTracking t' = true ∧
  button_textContent t' = button_textContent t ∧
  status_textContent t' = status_textContent t ∧
  currentRoute t' = currentRoute t.
Proof.
  unfold toggleTracking. destruct (isTracking t) eqn:Hon; cbn [negb].
  - destruct (currentRoute t) as [route|]; [| discriminate].
    cbn [mbind option_bind].
    destruct (insertRoute route e1 (program t)) as [[[v|r] σ]|];
      [| | discriminate]; cbn [mbind option_bind].
    + destruct (listRoutes e2 σ) as [[[routes|r] σ']|];
        [discriminate | | discriminate]. cbn [mbind option_bind].
      intros [= <- <-]. repeat split; reflexivity.
    + intros [= <- <-]. repeat split; reflexivity.
  - destruct (geolocation b); [| discriminate].
    by destruct (new_Route _ _ _ _ _).
Qed.

(** [listRoutes] when the database opens and [getAll] fails. *)
Lemma listRoutes_getAll_fails e (σ : state number) ex :
  open_errorCode e = None →
  request_fault e = Some ex →
  listRoutes e σ =
    Some (Rejected ("Error listing routes" +:+ DOMException_toString ex),
          {| heap := heap σ;
             routesDB :=
               Some (default {| records := []; keygen := 1 |} (routesDB σ));
             connections := S (connections σ) |}).
Proof.
  intros Hopen Hfault. unfold listRoutes, open. by rewrite Hopen, Hfault.
Qed.

(** X25. When the route was stored but the listing that follows fails,
    the stop rejects with the flag still on; the next click stops again
    and stores the same route a second time: the store ends with two
    records of it, under consecutive keys. *)
Theorem toggleTracking_retry_duplicates b e1 e2 e3 t (route : loc) o items
    (ex : DOMException) :
  isTracking t = true →
  currentRoute t = Some route →
  db_inv (program t) →
  heap (program t) !! route = Some (Obj o) →
  heap (program t) !! obj_coordinates o = Some (Arr items) →
  obj_id o = Some IdNull →
  open_errorCode e1 = None → request_fault e1 = None →
  open_errorCode e2 = None → request_fault e2 = Some ex →
  open_errorCode e3 = None → request_fault e3 = None →
  ∃ t1 t2,
    toggleTracking b e1 e2 t =
      Some (Rejected ("Error listing routes" +:+ DOMException_toString ex),
            t1) ∧
    isTracking t1 = true ∧
    toggleTracking b e1 e3 t1 = Some (Resolved VUndefined, t2) ∧
    records_of (program t2) =
      records_of (program t) ++
        [{| rec_id := next_key (program t);
            rec_created := obj_created o;
            rec_coordinates := items |};
         {| rec_id := next_key (program t) + 1;
            rec_created := obj_created o;
            rec_coordinates := items |}].
Proof.
  intros Hon Hcur Hinv Hr Hc Hid Ho1 Hf1 Ho2 Hf2 Ho3 Hf3.
  pose proof (insertRoute_null_ok route e1 _ o items Hinv Hr Hc Hid Ho1 Hf1)
    as Hins1.
  destruct (insertRoute_run_inv _ _ _ _ _ _ _ Hinv Hr Hc Hins1)
    as [Hinv1 Hframe1].
  match type of Hins1 with _ = Some (_, ?x) => set (σ1 := x) in * end.
  pose proof (listRoutes_getAll_fails e2 σ1 ex Ho2 Hf2) as Hlist1.
  match type of Hlist1 with _ = Some (_, ?x) => set (σ1' := x) in * end.
  assert (Hstop1 :
    toggleTracking b e1 e2 t =
      Some (Rejected ("Error listing routes" +:+ DOMException_toString ex),
            {| isTracking := isTracking t;
               watchId := watchId t;
               locationData := locationData t;
               currentRoute := currentRoute t;
               button_textContent := button_textContent t;
               status_textContent := status_textContent t;
               watches := clearWatch (watchId t) (watches t);
               alerts := alerts t;
               program := σ1' |})).
  { unfold toggleTracking. rewrite Hon, Hcur. cbn [negb mbind option_bind].
    rewrite Hins1. cbn [mbind option_bind]. rewrite Hlist1.
    cbn [mbind option_bind]. reflexivity. }
  match type of Hstop1 with _ = Some (_, ?x) => set (t1 := x) in * end.
  assert (Hinv1' : db_inv (program t1)) by exact Hinv1.
  assert (Hr1 : heap (program t1) !! route = Some (Obj o))
    by (apply Hframe1, Hr).
  assert (Hc1 : heap (program t1) !! obj_coordinates o = Some (Arr items))
    by (apply Hframe1, Hc).
  pose proof (insertRoute_null_ok route e1 _ o items Hinv1' Hr1 Hc1 Hid
                Ho1 Hf1) as Hins2.
  match type of Hins2 with _ = Some (_, ?x) => set (σ2 := x) in * end.
  destruct (listRoutes_map_clones (records_of σ2) (now e3) (heap σ2))
    as (routes & h3 & Hmap & _).
  pose proof (listRoutes_unfold e3 σ2 Ho3 Hf3) as Hlist2.
  rewrite Hmap in Hlist2. cbn [mbind option_bind] in Hlist2.
  exists t1. eexists. split; [exact Hstop1 |]. split; [exact Hon |].
  unfold toggleTracking at 1.
  change (isTracking t1) with (isTracking t).
  change (currentRoute t1) with (currentRoute t).
  rewrite Hon, Hcur. cbn [negb mbind option_bind].
  rewrite Hins2. cbn [mbind option_bind].
  rewrite Hlist2. cbn [mbind option_bind].
  split; [reflexivity |].
  cbn [program]. rewrite records_of_Some.
  cbn [σ2 routesDB default records].
  change (records_of (program t1)) with
    (records_of (program t) ++
       [{| rec_id := next_key (program t); rec_created := obj_created o;
           rec_coordinates := items |}]).
  change (next_key (program t1)) with (next_key (program t) + 1).
  by rewrite <- app_assoc.
Qed.

End TrackingFacts.

(** ** Runs of the tracking session *)

Lemma tracking_session_stores_route_witness :
  ∃ t1 t2 t3,
    toggleTracking located online online page =
      Some (Resolved VUndefined, t1) ∧
    deliver walk t1 = Some t2 ∧
    toggleTracking located online online t2 =
      Some (Resolved VUndefined, t3) ∧
    records_of (program t3) =
      records_of (program page) ++
        [{| rec_id := next_key (program page);
            rec_created := clock located;
            rec_coordinates := map delivered walk |}] ∧
    isTracking t3 = false ∧
    button_textContent t3 = "Start Tracking" ∧
    watches t3 = clearWatch (Some (next_watchId located))
                   (next_watchId located :: watches page) ∧
    connections (program t3) = S (connections (program page)).
Proof.
  apply (tracking_session_stores_route located online online page walk);
    first [reflexivity | exact I].
Defined.

Lemma toggleTracking_rejected_keeps_tracking_witness :
  isTracking tracking = true ∧
  isTracking tracking_refused = true ∧
  button_textContent tracking_refused = button_textContent tracking ∧
  status_textContent tracking_refused = status_textContent tracking ∧
  currentRoute tracking_refused = currentRoute tracking.
Proof.
  apply (toggleTracking_rejected_keeps_tracking located refused online
           tracking "Database error: undefined" tracking_refused).
  vm_compute. reflexivity.
Defined.

Lemma toggleTracking_retry_duplicates_witness :
  ∃ t1 t2,
    toggleTracking located online failing tracking =
      Some (Rejected ("Error listing routes"
                      +:+ DOMException_toString
                            {| name := "UnknownError"; message := "" |}),
            t1) ∧
    isTracking t1 = true ∧
    toggleTracking located online online t1 =
      Some (Resolved VUndefined, t2) ∧
    records_of (program t2) =
      records_of (program tracking) ++
        [{| rec_id := next_key (program tracking);
            rec_created := obj_created (tracked IdNull);
            rec_coordinates := [start; finish] |};
         {| rec_id := next_key (program tracking) + 1;
            rec_created := obj_created (tracked IdNull);
            rec_coordinates := [start; finish] |}].
Proof.
  apply (toggleTracking_retry_duplicates located online failing online
           tracking 1%positive (tracked IdNull) [start; finish]
           {| name := "UnknownError"; message := "" |});
    first [reflexivity | exact I].
Defined.
